(** * Transcript-to-genomic coordinate translation

    A shallow embedding of [translate_transcript_to_genomic_coords.py] and
    the properties of its CIGAR parser, its coordinate-map builder, its
    registry and its query loop.

    Conventions of the embedding.
    - Text is [string]; a character is an [ascii], read as a code point
      below 256.  The Python predicates on text ([str.isalpha],
      [str.isdigit], [int], the two regular expressions) are tabulated on
      that range.
    - Python integers are [Z]; [range n] runs [Z.to_nat n] times, so it is
      empty for [n <= 0].
    - The dictionary built by [generate_genomic_dict] is a [gmap Z Z].  The
      two outer dictionaries are iterated by the program, so they keep
      Python's insertion order: they are association lists ([dict]).
    - Printing, writing to the output file and the two ways the program
      stops early ([sys.exit] and the [ValueError] of [int]) are the
      effects of a small trace-and-exception monad [M].
    - The loops over the two files take the lines already split in fields:
      a row is the [list string] that [re.split] returns.  The split
      itself is [split_line], and the functions whose names end with
      [_from_lines] start from the lines. *)

From Stdlib Require Import ZArith Ascii String List Lia Bool.
From stdpp Require Import base option list gmap strings pretty.

Import ListNotations.
Local Open Scope string_scope.
Local Open Scope list_scope.
Local Open Scope Z_scope.

(** ** Characters and the text predicates of Python *)

Module Text.

Definition ord (c : ascii) : Z := Z.of_N (N_of_ascii c).

Definition between (lo hi n : Z) : bool := (lo <=? n) && (n <=? hi).

(** [\d] of [re] and the digits [int] reads: the decimal digits. *)
Definition is_decimal (c : ascii) : bool := between 48 57 (ord c).

Definition digit_value (c : ascii) : Z := ord c - 48.

(** [c.isalpha()] for a one-character string: the letters. *)
Definition isalpha (c : ascii) : bool :=
  let n := ord c in
  between 65 90 n || between 97 122 n
  || (n =? 170) || (n =? 181) || (n =? 186)
  || between 192 214 n || between 216 246 n || between 248 255 n.

(** One character of [str.isdigit]: the decimal digits and the
    superscripts one, two and three. *)
Definition isdigit_char (c : ascii) : bool :=
  let n := ord c in
  between 48 57 n || (n =? 178) || (n =? 179) || (n =? 185).

(** [s.isdigit()]: at least one character, and all of them digits. *)
Definition isdigit (s : string) : bool :=
  match list_ascii_of_string s with
  | [] => false
  | cs => forallb isdigit_char cs
  end.

(** White space that [int] skips on both sides of the number. *)
Definition int_space (c : ascii) : bool :=
  let n := ord c in
  between 9 13 n || (n =? 32) || (n =? 133) || (n =? 160).

Fixpoint skip_space (cs : list ascii) : list ascii :=
  match cs with
  | c :: cs' => if int_space c then skip_space cs' else cs
  | [] => []
  end.

(** The digits of the literal: decimal digits, with single underscores
    between them.  Returns the value read and what follows it. *)
Fixpoint scan_digits (cs : list ascii) (prev_underscore : bool) (acc : Z)
  : option (Z * list ascii) :=
  match cs with
  | c :: cs' =>
      if is_decimal c then scan_digits cs' false (10 * acc + digit_value c)
      else if Ascii.eqb c "_" then
        if prev_underscore then None else scan_digits cs' true acc
      else if prev_underscore then None else Some (acc, cs)
  | [] => if prev_underscore then None else Some (acc, [])
  end.

(** [int(s)] in base ten, with no bound on the number of digits; [None]
    stands for [ValueError]. *)
Definition int (s : string) : option Z :=
  let cs := skip_space (list_ascii_of_string s) in
  let '(sign, cs) :=
    match cs with
    | "+"%char :: r => (1, r)
    | "-"%char :: r => (-1, r)
    | _ => (1, cs)
    end in
  match cs with
  | c :: _ =>
      if is_decimal c then
        match scan_digits cs false 0 with
        | Some (n, rest) => if forallb int_space rest then Some (sign * n) else None
        | None => None
        end
      else None
  | [] => None
  end.

Definition lower (c : ascii) : ascii :=
  if between 65 90 (ord c) then ascii_of_N (N_of_ascii c + 32) else c.

(** A character class of letters and [=], matched with [re.I]. *)
Definition in_class (cls : string) (c : ascii) : bool :=
  existsb (fun k => Ascii.eqb (lower k) (lower c)) (list_ascii_of_string cls).

(** [\d+[cls]] matched at the start of [cs], with [re.I]. *)
Fixpoint match_digits_op (cls : string) (cs : list ascii) (seen : bool) : bool :=
  match cs with
  | c :: cs' =>
      if is_decimal c then match_digits_op cls cs' true
      else seen && in_class cls c
  | [] => false
  end.

(** [re.search(r'\d+[cls]', s, re.I)] as a truth value. *)
Fixpoint search_digits_op (cls : string) (cs : list ascii) : bool :=
  match_digits_op cls cs false
  || match cs with
     | _ :: cs' => search_digits_op cls cs'
     | [] => false
     end.

(** [re.match(r'[cls]', c, re.I)] for a one-character string [c]. *)
Definition match_class (cls : string) (c : ascii) : bool := in_class cls c.

End Text.

(** ** Effects: the trace of prints and writes, and early exits *)

Inductive exn : Type :=
| SystemExit
| ValueError.

Inductive event : Type :=
| Printed (line : string)
| Written (text : string).

Inductive outcome (A : Type) : Type :=
| Returned (a : A)
| Raised (e : exn).
Arguments Returned {A} a.
Arguments Raised {A} e.

Definition M (A : Type) : Type := (list event * outcome A)%type.

Definition ret {A} (a : A) : M A := ([], Returned a).

Definition bind {A B} (m : M A) (f : A -> M B) : M B :=
  match m with
  | (t, Returned a) => let '(t', r) := f a in (t ++ t', r)
  | (t, Raised e) => (t, Raised e)
  end.

#[global] Instance M_ret : MRet M := @ret.
#[global] Instance M_bind : MBind M := fun A B f m => bind m f.

(** [print(line)]; the newline that [print] adds is left out. *)
Definition print (line : string) : M unit := ([Printed line], Returned tt).

(** [output_file.write(text)]. *)
Definition file_write (text : string) : M unit := ([Written text], Returned tt).

Definition sys_exit {A} : M A := ([], Raised SystemExit).

(** [int(s)] as an action: it raises [ValueError] on a bad literal. *)
Definition int_of (s : string) : M Z :=
  match Text.int s with
  | Some n => mret n
  | None => ([], Raised ValueError)
  end.

(** [for x in xs: body x]. *)
Fixpoint for_each {A} (xs : list A) (body : A -> M unit) : M unit :=
  match xs with
  | [] => mret tt
  | x :: xs' => body x ;; for_each xs' body
  end.

(** ** The CIGAR parser *)

(** An element [[cigar_int, cigar_char]] of the parsed list. *)
Definition cigar_entry : Type := (Z * ascii)%type.

(** The loop of [process_cigar_string], from the characters still to read
    and the two variables it updates. *)
Fixpoint process_cigar_loop (cs : list ascii) (cigar_list : list cigar_entry)
    (cigar_int : string) : M (list cigar_entry) :=
  match cs with
  | [] => mret cigar_list
  | cigar_char :: cs' =>
      if negb (Text.isalpha cigar_char || Ascii.eqb cigar_char "=") then
        process_cigar_loop cs' cigar_list (cigar_int +:+ String cigar_char "")
      else
        if String.eqb cigar_int "" then
          print "Error! Wrong CIGAR string format" ;; sys_exit
        else
          n ← int_of cigar_int ;
          process_cigar_loop cs' (cigar_list ++ [(n, cigar_char)]) ""
  end.

Definition process_cigar_string (cigar_string : string) : M (list cigar_entry) :=
  process_cigar_loop (list_ascii_of_string cigar_string) [] "".


(** ** Building one coordinate map *)

(** The three variables of [generate_genomic_dict]. *)
Record walk : Type := Walk {
  genomic_dict : gmap Z Z;
  tr_idx : Z;
  chr_idx : Z
}.

(** One turn of the inner loop of a query-and-reference entry. *)
Definition step_both (w : walk) : walk :=
  {| genomic_dict := <[tr_idx w := chr_idx w]> (genomic_dict w);
     tr_idx := tr_idx w + 1;
     chr_idx := chr_idx w + 1 |}.

(** One turn of the inner loop of a reference entry. *)
Definition step_reference (w : walk) : walk :=
  {| genomic_dict := genomic_dict w; tr_idx := tr_idx w; chr_idx := chr_idx w + 1 |}.

(** One turn of the inner loop of a query entry. *)
Definition step_query (w : walk) : walk :=
  {| genomic_dict := genomic_dict w; tr_idx := tr_idx w + 1; chr_idx := chr_idx w |}.

(** [for idx in range(n): w = step w]. *)
Definition for_range (n : Z) (step : walk -> walk) (w : walk) : walk :=
  Nat.iter (Z.to_nat n) step w.

(** The body of [for entry in cigar_arr]. *)
Definition walk_entry (w : walk) (entry : cigar_entry) : walk :=
  let cigar_int := entry.1 in
  let cigar_char := entry.2 in
  if Text.match_class "M=X" cigar_char then for_range cigar_int step_both w
  else if Text.match_class "DN" cigar_char then for_range cigar_int step_reference w
  else if Text.match_class "IS" cigar_char then for_range cigar_int step_query w
  else w.

(** The variables of [generate_genomic_dict] when its loop ends. *)
Definition generate_walk (chr_start_coord : Z) (cigar_arr : list cigar_entry) : walk :=
  fold_left walk_entry cigar_arr
    {| genomic_dict := ∅; tr_idx := 0; chr_idx := chr_start_coord |}.

Definition generate_genomic_dict (chr_start_coord : Z) (cigar_arr : list cigar_entry)
  : gmap Z Z :=
  genomic_dict (generate_walk chr_start_coord cigar_arr).

(** ** Dictionaries that are iterated: insertion order kept *)

Definition dict (V : Type) : Type := list (string * V).

(** [d[k] = v]: a key already there keeps its place and takes the new
    value, a new key goes to the end. *)
Fixpoint dict_set {V} (k : string) (v : V) (d : dict V) : dict V :=
  match d with
  | [] => [(k, v)]
  | (k', v') :: d' =>
      if String.eqb k k' then (k', v) :: d' else (k', v') :: dict_set k v d'
  end.

(** [d[k]] when [k in d]. *)
Fixpoint dict_get {V} (k : string) (d : dict V) : option V :=
  match d with
  | [] => None
  | (k', v') :: d' => if String.eqb k k' then Some v' else dict_get k d'
  end.

(** ** The registry of alignments *)

(** The innermost dictionary, with its keys ["start_coord"] and ["cigar"]. *)
Record alignment : Type := Alignment {
  start_coord : Z;
  cigar : list cigar_entry
}.

(** [arr[i]] of a line already checked for its number of fields. *)
Definition field (i : nat) (arr : list string) : string := nth i arr "".

Definition check_genome_map_line_format (genome_map_line_arr : list string) : M unit :=
  if negb (length genome_map_line_arr =? 4)%nat then
    print "Error! Genome mapping file must have 4 columns" ;; sys_exit
  else if negb (Text.isdigit (field 2 genome_map_line_arr)) then
    print "Error! Reference coordinate is invalid" ;; sys_exit
  else if negb (Text.search_digits_op "MIDNSHP=X"
                  (list_ascii_of_string (field 3 genome_map_line_arr))) then
    print "Error! CIGAR string contains invalid characters" ;; sys_exit
  else mret tt.

(** The loop of [create_transcript_genomic_dict] over the lines of the
    genome mapping file, each one split in fields. *)
Fixpoint create_loop (genome_map : list (list string))
    (transcript_to_genomic_dict : dict (dict alignment)) : M (dict (dict alignment)) :=
  match genome_map with
  | [] => mret transcript_to_genomic_dict
  | rows :: genome_map' =>
      check_genome_map_line_format rows ;;
      let transcript_id := field 0 rows in
      let chr_num := field 1 rows in
      let start_coord := field 2 rows in
      let cigar := field 3 rows in
      (* transcript_to_genomic_dict[transcript_id] = {} *)
      let fresh : dict alignment := [] in
      s ← int_of start_coord ;
      c ← process_cigar_string cigar ;
      create_loop genome_map'
        (dict_set transcript_id
           (dict_set chr_num {| start_coord := s; cigar := c |} fresh)
           transcript_to_genomic_dict)
  end.

Definition create_transcript_genomic_dict (genome_map : list (list string))
  : M (dict (dict alignment)) :=
  create_loop genome_map [].

Definition map_coordinates (transcript_to_genomic_dict : dict (dict alignment))
  : dict (dict (gmap Z Z)) :=
  fold_left
    (fun coord_map '(tr, chs) =>
       dict_set tr
         (fold_left
            (fun inner '(ch, al) =>
               dict_set ch (generate_genomic_dict (start_coord al) (cigar al)) inner)
            chs [])
         coord_map)
    transcript_to_genomic_dict [].

(** ** Answering the queries *)

Definition tab : string := String (ascii_of_nat 9) "".
Definition newline : string := String (ascii_of_nat 10) "".

Definition check_transcript_line_format (transcript_line_arr : list string) : M unit :=
  if negb (length transcript_line_arr =? 2)%nat then
    print "Error! Transcript Processing File must contain 2 columns" ;; sys_exit
  else if negb (Text.isdigit (field 1 transcript_line_arr)) then
    print "Error! Transcript coordinates must be integers" ;; sys_exit
  else mret tt.

(** The body of [for ch in coord_map[tr_id]], on a chromosome and its map. *)
Definition merge_chromosome (tr_id tr_coord : string) (entry : string * gmap Z Z)
  : M unit :=
  let '(ch, m) := entry in
  c ← int_of tr_coord ;
  match m !! c with
  | None =>
      print ("Transcript coordinate " +:+ tr_coord +:+ " for transcript "
             +:+ tr_id +:+ " does not exist")
  | Some g =>
      file_write (tr_id +:+ tab +:+ tr_coord +:+ tab +:+ ch +:+ tab
                  +:+ pretty g +:+ newline)
  end.

(** The body of [for query in transcript_processing_file]. *)
Definition merge_query (coord_map : dict (dict (gmap Z Z))) (queries : list string)
  : M unit :=
  check_transcript_line_format queries ;;
  let tr_id := field 0 queries in
  let tr_coord := field 1 queries in
  match dict_get tr_id coord_map with
  | None => print ("Transcript " +:+ tr_id +:+ " does not exist in genome mapping file")
  | Some chs => for_each chs (merge_chromosome tr_id tr_coord)
  end.

Definition merge_transcript_file (transcript_processing_file : list (list string))
    (coord_map : dict (dict (gmap Z Z))) : M unit :=
  for_each transcript_processing_file (merge_query coord_map).

(** The whole workflow, on the lines of the two input files. *)
Definition transcript_to_genomic_coordinates
    (genome_mapping_file transcript_processing_file : list (list string)) : M unit :=
  transcript_genomic_alignment ← create_transcript_genomic_dict genome_mapping_file ;
  merge_transcript_file transcript_processing_file
    (map_coordinates transcript_genomic_alignment).

(** ** The vocabulary of the specification *)

(** The operation codes by what they consume, in both letter cases. *)
Definition consuming_both : list ascii := ["M"; "m"; "="; "X"; "x"]%char.
Definition reference_only : list ascii := ["D"; "d"; "N"; "n"]%char.
Definition query_only : list ascii := ["I"; "i"; "S"; "s"]%char.
Definition clip_or_pad : list ascii := ["H"; "h"; "P"; "p"]%char.

Definition code_in (codes : list ascii) (c : ascii) : bool :=
  existsb (Ascii.eqb c) codes.

(** The sum of the lengths of a CIGAR sequence. *)
Fixpoint sum_lengths (l : list cigar_entry) : Z :=
  match l with
  | [] => 0
  | (n, _) :: l' => n + sum_lengths l'
  end.

(** The reference length a CIGAR sequence consumes: the sum of the lengths
    of its M, =, X, D and N operations. *)
Fixpoint reference_length (l : list cigar_entry) : Z :=
  match l with
  | [] => 0
  | (n, c) :: l' =>
      (if code_in (consuming_both ++ reference_only) c then n else 0)
      + reference_length l'
  end.

(** A mapping that grows strictly with its key. *)
Definition increasing (m : gmap Z Z) : Prop :=
  ∀ i j vi vj, i < j → m !! i = Some vi → m !! j = Some vj → vi < vj.

(** ** Invariants of the walk, and the example of the specification *)

(** Every key is behind the transcript cursor and every image behind the
    genomic cursor. *)
Definition bounded (w : walk) : Prop :=
  ∀ k v, genomic_dict w !! k = Some v → k < tr_idx w ∧ v < chr_idx w.

Definition ordered (w : walk) : Prop :=
  bounded w ∧ increasing (genomic_dict w).

(** While only query-and-reference entries have been read, the dictionary
    is the shift by [s] on the keys below the transcript cursor. *)
Definition aligned (s : Z) (w : walk) : Prop :=
  0 ≤ tr_idx w
  ∧ chr_idx w = s + tr_idx w
  ∧ size (genomic_dict w) = Z.to_nat (tr_idx w)
  ∧ ∀ k, genomic_dict w !! k
         = if bool_decide (0 ≤ k < tr_idx w) then Some (s + k) else None.

(** The deletion example [8M7D6M2I2M11D7M], parsed. *)
Definition example_cigar_arr : list cigar_entry :=
  [(8, "M"%char); (7, "D"%char); (6, "M"%char); (2, "I"%char);
   (2, "M"%char); (11, "D"%char); (7, "M"%char)].

(** The coordinate map of the deletion example, pair by pair. *)
Definition example_pairs : list (Z * Z) :=
  [(0, 3); (1, 4); (2, 5); (3, 6); (4, 7); (5, 8); (6, 9); (7, 10);
   (8, 18); (9, 19); (10, 20); (11, 21); (12, 22); (13, 23);
   (16, 24); (17, 25);
   (18, 37); (19, 38); (20, 39); (21, 40); (22, 41); (23, 42); (24, 43)].

(** ** More vocabulary: the lengths a CIGAR sequence consumes *)

(** The query length: the sum of the lengths of the M, =, X, I and S
    operations. *)
Fixpoint query_length (l : list cigar_entry) : Z :=
  match l with
  | [] => 0
  | (n, c) :: l' =>
      (if code_in (consuming_both ++ query_only) c then n else 0) + query_length l'
  end.

(** The matched length: the sum of the lengths of the M, = and X
    operations. *)
Fixpoint matched_length (l : list cigar_entry) : Z :=
  match l with
  | [] => 0
  | (n, c) :: l' => (if code_in consuming_both c then n else 0) + matched_length l'
  end.


(** Two walks that differ by a shift [dk] of the keys and a shift [dv] of
    the images. *)
Definition shifted (dk dv : Z) (w w' : walk) : Prop :=
  tr_idx w' = tr_idx w + dk
  ∧ chr_idx w' = chr_idx w + dv
  ∧ ∀ k, genomic_dict w' !! k = (λ v, v + dv) <$> genomic_dict w !! (k - dk).

(** Keys and images do not go below where the walk started. *)
Definition floored (s : Z) (w : walk) : Prop :=
  0 ≤ tr_idx w ∧ s ≤ chr_idx w
  ∧ ∀ k v, genomic_dict w !! k = Some v → 0 ≤ k ∧ s ≤ v.

(** ** More vocabulary: the characters the parser takes as operators *)

(** A letter or [=]: what [process_cigar_string] takes as an operator. *)
Definition operator_char (c : ascii) : bool := Text.isalpha c || Ascii.eqb c "=".

(** ** More vocabulary: the registry and the format checks *)

(** The lines the build of the registry can print before it leaves. *)
Definition build_errors : list string :=
  ["Error! Genome mapping file must have 4 columns";
   "Error! Reference coordinate is invalid";
   "Error! CIGAR string contains invalid characters";
   "Error! Wrong CIGAR string format"].


(** The entry of the coordinate map registry made from one alignment. *)
Definition coordinates_of (al : alignment) : gmap Z Z :=
  generate_genomic_dict (start_coord al) (cigar al).

(** ** More vocabulary: the answer to a query *)



(** ** The lines of the two input files *)

(** [c.isspace()] and the [\s] of [re]: the white space below code point
    256. *)
Definition isspace (c : ascii) : bool :=
  let n := Text.ord c in
  Text.between 9 13 n || Text.between 28 32 n || (n =? 133) || (n =? 160).

(** [row.rstrip()], on the characters of the row: the white space at the
    end is taken off. *)
Fixpoint rstrip (cs : list ascii) : list ascii :=
  match cs with
  | [] => []
  | c :: cs' =>
      match rstrip cs' with
      | [] => if isspace c then [] else [c]
      | r => c :: r
      end
  end.

(** [re.split(r'\s+', row)], on the characters of the row: [piece] is the
    field being read and [in_gap] tells that the last character was white
    space.  A row that starts with white space has an empty first field,
    and one that ends with white space an empty last field. *)
Fixpoint re_split_space (cs : list ascii) (piece : list ascii) (in_gap : bool)
  : list (list ascii) :=
  match cs with
  | [] => [piece]
  | c :: cs' =>
      if isspace c then
        if in_gap then re_split_space cs' [] true
        else piece :: re_split_space cs' [] true
      else re_split_space cs' (piece ++ [c]) false
  end.

(** The first two statements of both reading loops:
    [row = row.rstrip()] and [rows = re.split(r'\s+', row)]. *)
Definition split_line (row : string) : list string :=
  map string_of_list_ascii
    (re_split_space (rstrip (list_ascii_of_string row)) [] false).

(** [create_transcript_genomic_dict] on the lines of the genome mapping
    file. *)
Definition create_transcript_genomic_dict_from_lines (genome_map : list string)
  : M (dict (dict alignment)) :=
  create_transcript_genomic_dict (map split_line genome_map).

(** [merge_transcript_file] on the lines of the query file. *)
Definition merge_transcript_file_from_lines (transcript_processing_file : list string)
    (coord_map : dict (dict (gmap Z Z))) : M unit :=
  merge_transcript_file (map split_line transcript_processing_file) coord_map.

(** Text made of white space only, and text with no white space. *)
Definition all_space (s : string) : Prop :=
  forallb isspace (list_ascii_of_string s) = true.

Definition space_free (s : string) : Prop :=
  forallb (λ c, negb (isspace c)) (list_ascii_of_string s) = true.

(** A first field and then separators and fields, put in a line. *)
Fixpoint join_fields (f : string) (rest : list (string * string)) : string :=
  match rest with
  | [] => f
  | (sep, g) :: rest' => f +:+ sep +:+ join_fields g rest'
  end.

(** ** More vocabulary: a CIGAR string in segments *)

(** The text of a CIGAR string given by its segments, each the text of a
    length and an operator. *)
Fixpoint cigar_text (segs : list (string * ascii)) : string :=
  match segs with
  | [] => ""
  | (digits, c) :: segs' => digits +:+ String c "" +:+ cigar_text segs'
  end.

(** A segment the parser reads as the length [n]: a text that is not
    empty, has no operator in it and is read by [int] as [n], and then an
    operator. *)
Definition segment_reads (seg : string * ascii) (n : Z) : Prop :=
  seg.1 ≠ ""
  ∧ forallb (λ c, negb (operator_char c)) (list_ascii_of_string seg.1) = true
  ∧ Text.int seg.1 = Some n
  ∧ operator_char seg.2 = true.

(** ** The operation classes of the code are those of the specification *)

Section Classes.

Local Ltac by_cases c :=
  destruct c as [[] [] [] [] [] [] [] []]; vm_compute; reflexivity.

Lemma match_class_both (c : ascii) :
  Text.match_class "M=X" c = code_in consuming_both c.
Proof. by_cases c. Qed.

Lemma match_class_reference (c : ascii) :
  Text.match_class "DN" c = code_in reference_only c.
Proof. by_cases c. Qed.

Lemma match_class_query (c : ascii) :
  Text.match_class "IS" c = code_in query_only c.
Proof. by_cases c. Qed.

Lemma code_in_elem_of (codes : list ascii) (c : ascii) :
  c ∈ codes → code_in codes c = true.
Proof.
  intros Hc. unfold code_in. apply existsb_exists. exists c.
  split; [by apply list_elem_of_In | apply Ascii.eqb_refl].
Qed.

Lemma code_in_app (xs ys : list ascii) (c : ascii) :
  code_in (xs ++ ys) c = code_in xs c || code_in ys c.
Proof. unfold code_in. apply existsb_app. Qed.

Lemma classes_disjoint (c : ascii) :
  code_in clip_or_pad c || code_in query_only c = true →
  code_in consuming_both c = false ∧ code_in reference_only c = false.
Proof. destruct c as [[] [] [] [] [] [] [] []]; vm_compute; intuition congruence. Qed.

End Classes.

(** ** The walk over a CIGAR sequence *)

Section Walk.

Lemma for_range_succ (n : nat) (step : walk → walk) (w : walk) :
  Nat.iter (S n) step w = step (Nat.iter n step w).
Proof. reflexivity. Qed.

(** A property kept by one turn is kept by the whole inner loop. *)
Lemma for_range_inv (P : walk → Prop) (step : walk → walk) :
  (∀ w, P w → P (step w)) → ∀ n w, P w → P (for_range n step w).
Proof.
  intros Hstep n w Hw. unfold for_range.
  induction (Z.to_nat n) as [|k IH]; simpl; auto.
Qed.

(** The cursors after the three inner loops. *)
Lemma iter_both_cursors (n : nat) (w : walk) :
  tr_idx (Nat.iter n step_both w) = tr_idx w + Z.of_nat n
  ∧ chr_idx (Nat.iter n step_both w) = chr_idx w + Z.of_nat n.
Proof.
  induction n as [|n [IHt IHc]]; [simpl; lia|].
  rewrite for_range_succ. unfold step_both at 1 3; simpl tr_idx; simpl chr_idx.
  rewrite IHt, IHc. lia.
Qed.

Lemma iter_reference (n : nat) (w : walk) :
  Nat.iter n step_reference w
  = {| genomic_dict := genomic_dict w; tr_idx := tr_idx w;
       chr_idx := chr_idx w + Z.of_nat n |}.
Proof.
  induction n as [|n IH].
  - destruct w; simpl. f_equal. lia.
  - rewrite for_range_succ, IH. unfold step_reference; simpl. f_equal. lia.
Qed.

Lemma iter_query (n : nat) (w : walk) :
  Nat.iter n step_query w
  = {| genomic_dict := genomic_dict w; tr_idx := tr_idx w + Z.of_nat n;
       chr_idx := chr_idx w |}.
Proof.
  induction n as [|n IH].
  - destruct w; simpl. f_equal. lia.
  - rewrite for_range_succ, IH. unfold step_query; simpl. f_equal. lia.
Qed.

(** How far one entry moves the genomic cursor. *)
Lemma walk_entry_chr_idx (w : walk) (n : Z) (c : ascii) :
  chr_idx (walk_entry w (n, c))
  = chr_idx w
    + (if code_in (consuming_both ++ reference_only) c then Z.max 0 n else 0).
Proof.
  unfold walk_entry; simpl fst; simpl snd.
  rewrite code_in_app, match_class_both, match_class_reference, match_class_query.
  unfold for_range.
  destruct (code_in consuming_both c), (code_in reference_only c),
    (code_in query_only c); cbn [orb];
    rewrite ?iter_reference, ?iter_query; cbn [chr_idx];
    try lia;
    destruct (iter_both_cursors (Z.to_nat n) w) as [_ ->]; lia.
Qed.

Lemma generate_walk_chr_idx (cigar_arr : list cigar_entry) (w : walk) :
  Forall (λ e : cigar_entry, 0 ≤ e.1) cigar_arr →
  chr_idx (fold_left walk_entry cigar_arr w) = chr_idx w + reference_length cigar_arr.
Proof.
  intros Hpos. revert w.
  induction Hpos as [|[n c] l Hn _ IH]; intros w;
    cbn [fold_left reference_length].
  - lia.
  - rewrite IH, walk_entry_chr_idx. cbn [fst] in Hn.
    destruct (code_in _ c); lia.
Qed.

End Walk.

(** ** The two invariants are kept *)

Section Invariants.

Lemma ordered_start (chr_start_coord : Z) :
  ordered {| genomic_dict := ∅; tr_idx := 0; chr_idx := chr_start_coord |}.
Proof.
  split; [intros k v | intros i j vi vj _]; simpl; rewrite lookup_empty; discriminate.
Qed.

Lemma ordered_step_both (w : walk) : ordered w → ordered (step_both w).
Proof.
  intros [Hb Hi]. split.
  - intros k v. unfold step_both; simpl. rewrite lookup_insert.
    case_decide as Hk.
    + intros [= <-]. lia.
    + intros Hv. apply Hb in Hv. lia.
  - intros i j vi vj Hij. unfold step_both; simpl. rewrite !lookup_insert.
    case_decide as Hi'; case_decide as Hj'.
    + lia.
    + intros _ Hv. apply Hb in Hv. lia.
    + intros Hv [= <-]. apply Hb in Hv. lia.
    + apply Hi, Hij.
Qed.

Lemma ordered_step_reference (w : walk) : ordered w → ordered (step_reference w).
Proof.
  intros [Hb Hi]. split; [|exact Hi].
  intros k v Hv. apply Hb in Hv. simpl. lia.
Qed.

Lemma ordered_step_query (w : walk) : ordered w → ordered (step_query w).
Proof.
  intros [Hb Hi]. split; [|exact Hi].
  intros k v Hv. apply Hb in Hv. simpl. lia.
Qed.

Lemma ordered_walk_entry (w : walk) (entry : cigar_entry) :
  ordered w → ordered (walk_entry w entry).
Proof.
  intros Hw. unfold walk_entry.
  repeat case_match; try assumption;
    apply for_range_inv;
    auto using ordered_step_both, ordered_step_reference, ordered_step_query.
Qed.

Lemma ordered_fold (cigar_arr : list cigar_entry) (w : walk) :
  ordered w → ordered (fold_left walk_entry cigar_arr w).
Proof.
  revert w. induction cigar_arr as [|e l IH]; intros w Hw; simpl; [exact Hw|].
  apply IH, ordered_walk_entry, Hw.
Qed.

Lemma aligned_start (s : Z) :
  aligned s {| genomic_dict := ∅; tr_idx := 0; chr_idx := s |}.
Proof.
  repeat split; simpl; try lia.
  intros k. rewrite lookup_empty. case_bool_decide; [lia | reflexivity].
Qed.

Lemma aligned_step_both (s : Z) (w : walk) : aligned s w → aligned s (step_both w).
Proof.
  intros (H0 & Hc & Hsz & Hl). unfold step_both. repeat split; simpl; try lia.
  - rewrite map_size_insert_None, Hsz; [lia|].
    rewrite Hl. case_bool_decide; [lia | reflexivity].
  - intros k. rewrite lookup_insert. case_decide as Hk.
    + subst k. case_bool_decide; [f_equal; lia | lia].
    + rewrite Hl. repeat case_bool_decide; try reflexivity; lia.
Qed.

Lemma aligned_fold (s : Z) (cigar_arr : list cigar_entry) (w : walk) :
  Forall (λ e : cigar_entry, code_in consuming_both e.2 = true ∧ 0 ≤ e.1) cigar_arr →
  aligned s w →
  aligned s (fold_left walk_entry cigar_arr w)
  ∧ tr_idx (fold_left walk_entry cigar_arr w) = tr_idx w + sum_lengths cigar_arr.
Proof.
  intros Hall. revert w.
  induction Hall as [|[n c] l [Hc Hn] _ IH]; intros w Hw;
    cbn [fold_left sum_lengths].
  - split; [exact Hw | lia].
  - cbn [fst snd] in Hc, Hn.
    assert (Hstep : walk_entry w (n, c) = for_range n step_both w).
    { unfold walk_entry; cbn [fst snd]. by rewrite match_class_both, Hc. }
    rewrite Hstep.
    destruct (IH (for_range n step_both w)) as [Ha Ht].
    { apply for_range_inv; [apply aligned_step_both | exact Hw]. }
    split; [exact Ha|]. rewrite Ht. unfold for_range.
    destruct (iter_both_cursors (Z.to_nat n) w) as [-> _]. lia.
Qed.

End Invariants.

(** ** The parser: digits, buffers and trailing characters *)

Section Parser.

Lemma list_ascii_of_string_app (a b : string) :
  list_ascii_of_string (a +:+ b) = list_ascii_of_string a ++ list_ascii_of_string b.
Proof. induction a as [|c a IH]; simpl; [reflexivity | by rewrite IH]. Qed.

(** A decimal digit is not an operator of the parser. *)
Lemma decimal_not_operator (c : ascii) :
  Text.is_decimal c = true → Text.isalpha c || Ascii.eqb c "=" = false.
Proof.
  destruct c as [[] [] [] [] [] [] [] []]; vm_compute; intuition congruence.
Qed.

Lemma digit_value_nonneg (c : ascii) : Text.is_decimal c = true → 0 ≤ Text.digit_value c.
Proof.
  unfold Text.is_decimal, Text.between, Text.digit_value.
  intros H. apply andb_true_iff in H as [H _]. lia.
Qed.

Lemma scan_digits_decimal (cs : list ascii) (acc : Z) :
  forallb Text.is_decimal cs = true → 0 ≤ acc →
  ∃ n, Text.scan_digits cs false acc = Some (n, []) ∧ 0 ≤ n.
Proof.
  revert acc. induction cs as [|c cs IH]; intros acc Hall Hacc; simpl.
  - eauto.
  - simpl in Hall. apply andb_true_iff in Hall as [Hc Hcs]. rewrite Hc.
    apply IH; [exact Hcs|]. pose proof (digit_value_nonneg c Hc). lia.
Qed.

(** [int] on a literal that starts with a decimal digit: no space to
    skip and no sign. *)
Lemma int_decimal_head (c : ascii) (s : string) :
  Text.is_decimal c = true →
  Text.int (String c s)
  = match Text.scan_digits (c :: list_ascii_of_string s) false 0 with
    | Some (n, rest) => if forallb Text.int_space rest then Some (1 * n) else None
    | None => None
    end.
Proof.
  intros H.
  destruct c as [[] [] [] [] [] [] [] []];
    try (vm_compute in H; discriminate H); reflexivity.
Qed.

(** [int] reads a non-empty run of decimal digits as a natural number. *)
Lemma int_decimal (buf : string) :
  buf ≠ "" → forallb Text.is_decimal (list_ascii_of_string buf) = true →
  ∃ n, Text.int buf = Some n ∧ 0 ≤ n.
Proof.
  destruct buf as [|c s]; [congruence|]. intros _ Hall.
  pose proof Hall as Hc. simpl in Hc. apply andb_true_iff in Hc as [Hc _].
  rewrite (int_decimal_head c s Hc).
  destruct (scan_digits_decimal (c :: list_ascii_of_string s) 0 Hall) as (n & -> & Hn);
    [lia|].
  simpl. exists (1 * n). split; [reflexivity | lia].
Qed.

(** Characters that are not operators, at the end of the text, are read
    into the buffer and dropped with it. *)
Lemma process_cigar_loop_tail (ds : list ascii) (cigar_list : list cigar_entry)
    (cigar_int : string) :
  forallb Text.is_decimal ds = true →
  process_cigar_loop ds cigar_list cigar_int = mret cigar_list.
Proof.
  revert cigar_int. induction ds as [|d ds IH]; intros buf Hall; simpl; [reflexivity|].
  simpl in Hall. apply andb_true_iff in Hall as [Hd Hds].
  rewrite (decimal_not_operator d Hd). simpl. apply IH, Hds.
Qed.

Lemma process_cigar_loop_app (ds cs : list ascii) (cigar_list : list cigar_entry)
    (cigar_int : string) :
  forallb Text.is_decimal ds = true →
  process_cigar_loop (cs ++ ds) cigar_list cigar_int
  = process_cigar_loop cs cigar_list cigar_int.
Proof.
  intros Hds. revert cigar_list cigar_int.
  induction cs as [|c cs IH]; intros acc buf; simpl.
  - apply process_cigar_loop_tail, Hds.
  - destruct (negb _); [apply IH|].
    destruct (String.eqb buf ""); [reflexivity|].
    unfold mbind, M_bind, bind.
    destruct (int_of buf) as [t [n|e]]; [|reflexivity].
    by rewrite IH.
Qed.

(** On text made of decimal digits and operators, the lengths read are
    natural numbers. *)
Lemma process_cigar_loop_nonneg (cs : list ascii) :
  Forall (λ c, Text.is_decimal c = true
               ∨ Text.isalpha c || Ascii.eqb c "=" = true) cs →
  ∀ (cigar_list : list cigar_entry) (cigar_int : string) t l,
    forallb Text.is_decimal (list_ascii_of_string cigar_int) = true →
    Forall (λ e : cigar_entry, 0 ≤ e.1) cigar_list →
    process_cigar_loop cs cigar_list cigar_int = (t, Returned l) →
    Forall (λ e : cigar_entry, 0 ≤ e.1) l.
Proof.
  induction 1 as [|c cs Hc _ IH]; intros acc buf t l Hbuf Hacc; simpl.
  - unfold mret, M_ret, ret. by intros [= _ <-].
  - destruct (Text.isalpha c || Ascii.eqb c "=") eqn:Hop; simpl.
    + destruct (String.eqb buf "") eqn:Hempty.
      * unfold mbind, M_bind, bind, print, sys_exit. discriminate.
      * apply String.eqb_neq in Hempty.
        destruct (int_decimal buf Hempty Hbuf) as (n & Hint & Hn).
        unfold int_of. rewrite Hint.
        unfold mbind, M_bind, bind, mret, M_ret, ret.
        destruct (process_cigar_loop cs _ "") as [t' r] eqn:Hrec.
        intros [= _ ->]. eapply IH; [| |exact Hrec]; [reflexivity|].
        apply Forall_app; split; [exact Hacc|]. by constructor.
    + destruct Hc as [Hd|Hc]; [|congruence].
      apply IH; [|exact Hacc].
      rewrite list_ascii_of_string_app, forallb_app, Hbuf. simpl.
      by rewrite Hd.
Qed.

End Parser.

(** ** The monad, the loops and the dictionaries *)

Section Effects.

Lemma bind_ret_l {A B} (a : A) (f : A → M B) : bind (ret a) f = f a.
Proof. unfold bind, ret. by destruct (f a). Qed.

Lemma bind_assoc {A B C} (m : M A) (f : A → M B) (g : B → M C) :
  bind (bind m f) g = bind m (λ a, bind (f a) g).
Proof.
  destruct m as [t [a|e]]; simpl; [|reflexivity].
  destruct (f a) as [t1 [b|e]]; simpl; [|reflexivity].
  destruct (g b) as [t2 r]. by rewrite app_assoc.
Qed.

(** A loop over a list with one element singled out. *)
Lemma for_each_app {A} (pre post : list A) (x : A) (body : A → M unit) :
  for_each (pre ++ x :: post) body
  = (for_each pre body ;; body x ;; for_each post body).
Proof.
  induction pre as [|y pre IH]; cbn [app for_each].
  - unfold mbind, M_bind, mret, M_ret. by rewrite bind_ret_l.
  - rewrite IH. unfold mbind, M_bind. by rewrite bind_assoc.
Qed.

Lemma dict_set_Forall {V} (P : string * V → Prop) (k : string) (v : V) (d : dict V) :
  (∀ k', P (k', v)) → Forall P d → Forall P (dict_set k v d).
Proof.
  intros Hv. induction 1 as [|[k' v'] d Hx Hd IH]; simpl.
  - by repeat constructor.
  - destruct (String.eqb k k'); constructor; auto.
Qed.



Lemma check_transcript_line_format_ok (tr_id tr_coord : string) :
  Text.isdigit tr_coord = true →
  check_transcript_line_format [tr_id; tr_coord] = mret tt.
Proof.
  intros H. unfold check_transcript_line_format, field. simpl. by rewrite H.
Qed.

(** An operator met with an empty buffer stops the program. *)
Lemma empty_buffer_exits (c : ascii) (cs : list ascii) (cigar_list : list cigar_entry) :
  Text.isalpha c || Ascii.eqb c "=" = true →
  process_cigar_loop (c :: cs) cigar_list ""
  = ([Printed "Error! Wrong CIGAR string format"], Raised SystemExit).
Proof. intros H. simpl. by rewrite H. Qed.

End Effects.

(** ** The examples of the specification *)

Example malformed_8MX_exits :
  create_transcript_genomic_dict [["TR1"; "CHR1"; "3"; "8MX"]]
  = ([Printed "Error! Wrong CIGAR string format"], Raised SystemExit).
Proof. reflexivity. Qed.

Example malformed_8Q_exits :
  create_transcript_genomic_dict [["TR1"; "CHR1"; "3"; "8Q"]]
  = ([Printed "Error! CIGAR string contains invalid characters"], Raised SystemExit).
Proof. reflexivity. Qed.

Example trailing_digits_8M7 :
  process_cigar_string "8M7" = ([], Returned [(8, "M"%char)]).
Proof. reflexivity. Qed.

Example stray_character_raises :
  process_cigar_string "8*M" = ([], Raised ValueError).
Proof. reflexivity. Qed.

Example negative_length_parsed :
  process_cigar_string "-8M" = ([], Returned [(-8, "M"%char)]).
Proof. reflexivity. Qed.

(** ** The claims *)

(** C1. For the alignment with CIGAR 8M7D6M2I2M11D7M and genomic start 3,
    the coordinate map sends the transcript offsets 0-7 to 3-10, 8-13 to
    18-23, 16-17 to 24-25 and 18-24 to 37-43; the offsets 14 and 15 are
    not keys, and there is no other key. *)
Theorem deletion_example_map :
  process_cigar_string "8M7D6M2I2M11D7M" = ([], Returned example_cigar_arr)
  ∧ generate_genomic_dict 3 example_cigar_arr = list_to_map example_pairs
  ∧ generate_genomic_dict 3 example_cigar_arr !! 14 = None
  ∧ generate_genomic_dict 3 example_cigar_arr !! 15 = None
  ∧ size (generate_genomic_dict 3 example_cigar_arr) = 23%nat.
Proof. repeat split; vm_compute; reflexivity. Qed.

(** C2. A CIGAR with an operator outside the alphabet is taken when some
    other part of it is well formed: the line [TR1 CHR1 3 8M3Q] passes the
    format check, which looks for one well-formed operation anywhere in
    the text, and the parser, which takes any letter as an operator. *)
Theorem unknown_operator_accepted :
  check_genome_map_line_format ["TR1"; "CHR1"; "3"; "8M3Q"] = ([], Returned tt)
  ∧ process_cigar_string "8M3Q" = ([], Returned [(8, "M"%char); (3, "Q"%char)])
  ∧ create_transcript_genomic_dict [["TR1"; "CHR1"; "3"; "8M3Q"]]
    = ([], Returned
             [("TR1", [("CHR1", {| start_coord := 3;
                                   cigar := [(8, "M"%char); (3, "Q"%char)] |})])]).
Proof. repeat split. Qed.

(** C3. A transcript given on two chromosomes keeps the second one only:
    each line of the genome mapping file starts the entry of its
    transcript afresh, so the query is answered for one chromosome. *)
Theorem second_chromosome_replaces_first :
  create_transcript_genomic_dict
    [["TR1"; "CHR1"; "3"; "8M"]; ["TR1"; "CHR2"; "10"; "8M"]]
  = ([], Returned
           [("TR1", [("CHR2", {| start_coord := 10; cigar := [(8, "M"%char)] |})])])
  ∧ transcript_to_genomic_coordinates
      [["TR1"; "CHR1"; "3"; "8M"]; ["TR1"; "CHR2"; "10"; "8M"]]
      [["TR1"; "4"]]
    = ([Written ("TR1" +:+ tab +:+ "4" +:+ tab +:+ "CHR2" +:+ tab +:+ "14" +:+ newline)],
       Returned tt).
Proof. split; vm_compute; reflexivity. Qed.

(** C4. For a CIGAR sequence of query-and-reference operations only (M, =,
    X) whose lengths, none negative, sum to [L], and for every start [s],
    the coordinate map has [L] entries, its keys are the offsets from 0 to
    [L - 1], and it sends the key [i] to [s + i]. *)
Theorem match_only_map (s : Z) (cigar_arr : list cigar_entry) :
  Forall (λ e : cigar_entry, e.2 ∈ consuming_both ∧ 0 ≤ e.1) cigar_arr →
  let L := sum_lengths cigar_arr in
  let m := generate_genomic_dict s cigar_arr in
  size m = Z.to_nat L
  ∧ (∀ i, is_Some (m !! i) ↔ 0 ≤ i < L)
  ∧ (∀ i, 0 ≤ i < L → m !! i = Some (s + i)).
Proof.
  intros Hall L m.
  assert (Hall' : Forall (λ e : cigar_entry,
                            code_in consuming_both e.2 = true ∧ 0 ≤ e.1) cigar_arr).
  { eapply Forall_impl; [exact Hall|]. intros [n c] [Hc Hn]. split; [|exact Hn].
    cbn [snd] in *. by apply code_in_elem_of. }
  destruct (aligned_fold s cigar_arr _ Hall' (aligned_start s))
    as [(_ & _ & Hsz & Hl) Ht].
  fold (generate_walk s cigar_arr) in Hsz, Hl, Ht. cbn [tr_idx] in Ht.
  assert (Htr : tr_idx (generate_walk s cigar_arr) = L) by (subst L; lia).
  rewrite Htr in Hsz, Hl. subst m. unfold generate_genomic_dict.
  split; [exact Hsz|]. split.
  - intros i. rewrite Hl. case_bool_decide as Hi.
    + split; [done | eauto].
    + split; [intros [x [=]] | done].
  - intros i Hi. rewrite Hl. by rewrite bool_decide_true.
Qed.

Lemma match_only_map_witness :
  Forall (λ e : cigar_entry, e.2 ∈ consuming_both ∧ 0 ≤ e.1)
    [(3, "M"%char); (2, "="%char); (4, "X"%char)]
  ∧ size (generate_genomic_dict 5 [(3, "M"%char); (2, "="%char); (4, "X"%char)])
    = 9%nat
  ∧ generate_genomic_dict 5 [(3, "M"%char); (2, "="%char); (4, "X"%char)] !! 8
    = Some 13.
Proof.
  assert (H : Forall (λ e : cigar_entry, e.2 ∈ consuming_both ∧ 0 ≤ e.1)
                [(3, "M"%char); (2, "="%char); (4, "X"%char)]).
  { repeat constructor; cbn [fst snd]; try lia;
      unfold consuming_both; set_solver. }
  split; [exact H|].
  destruct (match_only_map 5 _ H) as (Hsz & _ & Hl).
  split; [exact Hsz|]. apply (Hl 8). simpl. lia.
Defined.

(** C5. In a coordinate map built from any start and any CIGAR sequence,
    keys [i < j] have images [map[i] < map[j]]. *)
Theorem coordinate_map_increasing (chr_start_coord : Z) (cigar_arr : list cigar_entry)
    (i j vi vj : Z) :
  i < j →
  generate_genomic_dict chr_start_coord cigar_arr !! i = Some vi →
  generate_genomic_dict chr_start_coord cigar_arr !! j = Some vj →
  vi < vj.
Proof.
  destruct (ordered_fold cigar_arr _ (ordered_start chr_start_coord)) as [_ Hinc].
  apply Hinc.
Qed.

Lemma coordinate_map_increasing_witness :
  13 < 16
  ∧ generate_genomic_dict 3 example_cigar_arr !! 13 = Some 23
  ∧ generate_genomic_dict 3 example_cigar_arr !! 16 = Some 24
  ∧ 23 < 24.
Proof.
  assert (H13 : generate_genomic_dict 3 example_cigar_arr !! 13 = Some 23)
    by (vm_compute; reflexivity).
  assert (H16 : generate_genomic_dict 3 example_cigar_arr !! 16 = Some 24)
    by (vm_compute; reflexivity).
  split; [lia|]. split; [exact H13|]. split; [exact H16|].
  apply (coordinate_map_increasing 3 example_cigar_arr 13 16 23 24);
    [lia | exact H13 | exact H16].
Defined.

(** C6. For every start [s] and every CIGAR sequence, none of whose
    lengths is negative, the lengths of the operations that consume the
    reference (M, =, X, D, N) sum to the final genomic cursor minus [s];
    the operations H, P, I and S leave the genomic cursor where it is. *)
Theorem reference_length_round_trip (s : Z) (cigar_arr : list cigar_entry) :
  Forall (λ e : cigar_entry, 0 ≤ e.1) cigar_arr →
  reference_length cigar_arr = chr_idx (generate_walk s cigar_arr) - s
  ∧ ∀ (w : walk) (n : Z) (c : ascii),
      c ∈ clip_or_pad ++ query_only → chr_idx (walk_entry w (n, c)) = chr_idx w.
Proof.
  intros Hpos. split.
  - unfold generate_walk. rewrite (generate_walk_chr_idx _ _ Hpos). simpl. lia.
  - intros w n c Hc. rewrite walk_entry_chr_idx, code_in_app.
    apply code_in_elem_of in Hc. rewrite code_in_app in Hc.
    destruct (classes_disjoint c Hc) as [-> ->]. simpl. lia.
Qed.

Lemma reference_length_round_trip_witness :
  Forall (λ e : cigar_entry, 0 ≤ e.1) example_cigar_arr
  ∧ reference_length example_cigar_arr = 41
  ∧ chr_idx (generate_walk 3 example_cigar_arr) - 3 = 41.
Proof.
  assert (H : Forall (λ e : cigar_entry, 0 ≤ e.1) example_cigar_arr).
  { unfold example_cigar_arr. repeat constructor; cbn [fst]; lia. }
  split; [exact H|]. split; [reflexivity|].
  destruct (reference_length_round_trip 3 example_cigar_arr H) as [<- _].
  reflexivity.
Defined.

(** C7. A well-formed query for a transcript that the registry does not
    hold prints one line saying so, writes nothing, raises nothing, and
    the queries after it are processed as if it were not there. *)
Theorem unknown_transcript_reported (coord_map : dict (dict (gmap Z Z)))
    (tr_id tr_coord : string) (rest : list (list string)) :
  Text.isdigit tr_coord = true →
  dict_get tr_id coord_map = None →
  merge_query coord_map [tr_id; tr_coord]
  = ([Printed ("Transcript " +:+ tr_id +:+ " does not exist in genome mapping file")],
     Returned tt)
  ∧ merge_transcript_file ([tr_id; tr_coord] :: rest) coord_map
    = (Printed ("Transcript " +:+ tr_id +:+ " does not exist in genome mapping file")
         :: (merge_transcript_file rest coord_map).1,
       (merge_transcript_file rest coord_map).2).
Proof.
  intros Hdigit Hget.
  assert (Hq : merge_query coord_map [tr_id; tr_coord]
               = ([Printed ("Transcript " +:+ tr_id
                            +:+ " does not exist in genome mapping file")],
                  Returned tt)).
  { unfold merge_query. rewrite check_transcript_line_format_ok by exact Hdigit.
    unfold field; cbn [nth]. rewrite Hget. reflexivity. }
  split; [exact Hq|].
  unfold merge_transcript_file; cbn [for_each]. rewrite Hq.
  unfold mbind, M_bind, bind. by destruct (for_each rest _).
Qed.

Lemma unknown_transcript_reported_witness :
  Text.isdigit "5" = true
  ∧ dict_get "TR3" [("TR1", [("CHR1", generate_genomic_dict 3 example_cigar_arr)])]
    = None
  ∧ merge_query [("TR1", [("CHR1", generate_genomic_dict 3 example_cigar_arr)])]
      ["TR3"; "5"]
    = ([Printed "Transcript TR3 does not exist in genome mapping file"], Returned tt).
Proof.
  split; [reflexivity|]. split; [reflexivity|].
  apply (unknown_transcript_reported
           [("TR1", [("CHR1", generate_genomic_dict 3 example_cigar_arr)])]
           "TR3" "5" []); reflexivity.
Defined.

(** C8. For a well-formed query whose transcript is in the registry, a
    chromosome whose coordinate map does not have the coordinate as a key
    gets one printed line saying that the coordinate does not exist and
    no line in the output file; the chromosomes before and after it are
    treated as usual. *)
Theorem unmapped_coordinate_reported (coord_map : dict (dict (gmap Z Z)))
    (tr_id tr_coord ch : string) (c : Z) (m : gmap Z Z)
    (pre post : dict (gmap Z Z)) :
  Text.isdigit tr_coord = true →
  Text.int tr_coord = Some c →
  dict_get tr_id coord_map = Some (pre ++ (ch, m) :: post) →
  m !! c = None →
  merge_chromosome tr_id tr_coord (ch, m)
  = ([Printed ("Transcript coordinate " +:+ tr_coord +:+ " for transcript "
               +:+ tr_id +:+ " does not exist")],
     Returned tt)
  ∧ merge_query coord_map [tr_id; tr_coord]
    = (for_each pre (merge_chromosome tr_id tr_coord) ;;
       print ("Transcript coordinate " +:+ tr_coord +:+ " for transcript "
              +:+ tr_id +:+ " does not exist") ;;
       for_each post (merge_chromosome tr_id tr_coord)).
Proof.
  intros Hdigit Hint Hget Hm.
  assert (Hch : merge_chromosome tr_id tr_coord (ch, m)
                = print ("Transcript coordinate " +:+ tr_coord +:+ " for transcript "
                         +:+ tr_id +:+ " does not exist")).
  { unfold merge_chromosome, int_of. rewrite Hint.
    unfold mbind, M_bind, mret, M_ret. rewrite bind_ret_l, Hm. reflexivity. }
  split; [by rewrite Hch|].
  unfold merge_query. rewrite check_transcript_line_format_ok by exact Hdigit.
  unfold field; cbn [nth]. rewrite Hget, for_each_app, Hch.
  unfold mbind at 1, M_bind at 1, mret, M_ret. by rewrite bind_ret_l.
Qed.

Lemma unmapped_coordinate_reported_witness :
  Text.isdigit "14" = true
  ∧ Text.int "14" = Some 14
  ∧ generate_genomic_dict 3 example_cigar_arr !! 14 = None
  ∧ merge_query [("TR1", [("CHR1", generate_genomic_dict 3 example_cigar_arr)])]
      ["TR1"; "14"]
    = ([Printed "Transcript coordinate 14 for transcript TR1 does not exist"],
       Returned tt).
Proof.
  assert (Hm : generate_genomic_dict 3 example_cigar_arr !! 14 = None)
    by (vm_compute; reflexivity).
  split; [reflexivity|]. split; [reflexivity|]. split; [exact Hm|].
  destruct (unmapped_coordinate_reported
              [("TR1", [("CHR1", generate_genomic_dict 3 example_cigar_arr)])]
              "TR1" "14" "CHR1" 14 (generate_genomic_dict 3 example_cigar_arr)
              [] [] eq_refl eq_refl eq_refl Hm) as [_ ->].
  reflexivity.
Defined.

(** C9, as the specification has it, fails: the parser accepts ["0M"] and
    gives it the length 0. *)
Lemma zero_length_operation_emitted :
  process_cigar_string "0M" = ([], Returned [(0, "M"%char)])
  ∧ ¬ (∀ (s : string) t l,
         process_cigar_string s = (t, Returned l) →
         Forall (λ e : cigar_entry, 1 ≤ e.1) l).
Proof.
  split; [reflexivity|]. intros H.
  specialize (H "0M" [] [(0, "M"%char)] eq_refl).
  apply Forall_cons in H as [H _]. simpl in H. lia.
Qed.

(** C9, amended. For an input made of decimal digits and operator
    characters only, every operation the parser emits has a length of at
    least 0: no pair of an accepted input has a negative length.  The
    length 0 is reached, by the input ["0M"]. *)
Theorem parsed_lengths_nonnegative (s : string) (t : list event)
    (l : list cigar_entry) :
  Forall (λ c, Text.is_decimal c = true ∨ Text.isalpha c || Ascii.eqb c "=" = true)
    (list_ascii_of_string s) →
  process_cigar_string s = (t, Returned l) →
  Forall (λ e : cigar_entry, 0 ≤ e.1) l
  ∧ process_cigar_string "0M" = ([], Returned [(0, "M"%char)]).
Proof.
  intros Hs Hrun. split; [|reflexivity].
  eapply (process_cigar_loop_nonneg _ Hs [] ""); [reflexivity | constructor | exact Hrun].
Qed.

Lemma parsed_lengths_nonnegative_witness :
  process_cigar_string "8M0D3m" = ([], Returned [(8, "M"); (0, "D"); (3, "m")]%char)
  ∧ Forall (λ e : cigar_entry, 0 ≤ e.1) [(8, "M"); (0, "D"); (3, "m")]%char.
Proof.
  split; [reflexivity|].
  refine (proj1 (parsed_lengths_nonnegative "8M0D3m" [] _ _ eq_refl)).
  cbn [list_ascii_of_string].
  repeat (apply List.Forall_cons; [vm_compute; auto|]). apply List.Forall_nil.
Defined.

(** C10. Digits at the end of a CIGAR string, with no operator after
    them, are dropped without an error: the parser gives the string the
    result it gives the string without them; when that one is accepted,
    so is the string, with the same output. *)
Theorem trailing_digits_discarded (cigar_string digits : string) :
  forallb Text.is_decimal (list_ascii_of_string digits) = true →
  process_cigar_string (cigar_string +:+ digits) = process_cigar_string cigar_string
  ∧ ∀ t l, process_cigar_string cigar_string = (t, Returned l) →
           process_cigar_string (cigar_string +:+ digits) = (t, Returned l).
Proof.
  intros Hd.
  assert (H : process_cigar_string (cigar_string +:+ digits)
              = process_cigar_string cigar_string).
  { unfold process_cigar_string. rewrite list_ascii_of_string_app.
    apply process_cigar_loop_app, Hd. }
  split; [exact H|]. intros t l Hrun. by rewrite H.
Qed.

Lemma trailing_digits_discarded_witness :
  forallb Text.is_decimal (list_ascii_of_string "7") = true
  ∧ process_cigar_string ("8M" +:+ "7") = ([], Returned [(8, "M"%char)]).
Proof.
  split; [reflexivity|].
  exact (proj2 (trailing_digits_discarded "8M" "7" eq_refl) [] _ eq_refl).
Defined.

(** ** Further properties of the walk *)

Section WalkMore.

Lemma classes_exclusive (c : ascii) :
  (code_in consuming_both c = true →
   code_in reference_only c = false ∧ code_in query_only c = false)
  ∧ (code_in reference_only c = true → code_in query_only c = false).
Proof. destruct c as [[] [] [] [] [] [] [] []]; vm_compute; intuition congruence. Qed.

(** The walk of one entry, by the class of its code. *)
Lemma walk_entry_cases (w : walk) (n : Z) (c : ascii) :
  walk_entry w (n, c)
  = if code_in consuming_both c then for_range n step_both w
    else if code_in reference_only c then for_range n step_reference w
    else if code_in query_only c then for_range n step_query w
    else w.
Proof.
  unfold walk_entry; cbn [fst snd].
  by rewrite match_class_both, match_class_reference, match_class_query.
Qed.



(** The inner loop of a query-and-reference entry adds one key a turn. *)
Lemma iter_both_size (n : nat) (w : walk) :
  ordered w →
  size (genomic_dict (Nat.iter n step_both w)) = (size (genomic_dict w) + n)%nat.
Proof.
  intros Hw. induction n as [|n IH]; [simpl; lia|].
  rewrite for_range_succ.
  assert (Ho : ordered (Nat.iter n step_both w)).
  { clear IH. induction n; simpl; auto using ordered_step_both. }
  unfold step_both at 1; cbn [genomic_dict].
  rewrite map_size_insert_None, IH; [lia|].
  destruct (genomic_dict (Nat.iter n step_both w) !! tr_idx (Nat.iter n step_both w))
    as [v|] eqn:Hv; [|reflexivity].
  apply Ho in Hv. lia.
Qed.

Lemma walk_entry_size (w : walk) (n : Z) (c : ascii) :
  ordered w →
  size (genomic_dict (walk_entry w (n, c)))
  = (size (genomic_dict w)
     + (if code_in consuming_both c then Z.to_nat n else 0))%nat.
Proof.
  intros Hw. rewrite walk_entry_cases. unfold for_range.
  destruct (code_in consuming_both c).
  - by apply iter_both_size.
  - destruct (code_in reference_only c); [rewrite iter_reference; simpl; lia|].
    destruct (code_in query_only c); [rewrite iter_query; simpl; lia | lia].
Qed.

Lemma matched_length_nonneg (l : list cigar_entry) :
  Forall (λ e : cigar_entry, 0 ≤ e.1) l → 0 ≤ matched_length l.
Proof.
  induction 1 as [|[m d] l Hm _ IH]; cbn [matched_length]; [lia|].
  cbn [fst] in Hm. destruct (code_in _ d); lia.
Qed.

Lemma generate_walk_size (cigar_arr : list cigar_entry) (w : walk) :
  Forall (λ e : cigar_entry, 0 ≤ e.1) cigar_arr →
  ordered w →
  size (genomic_dict (fold_left walk_entry cigar_arr w))
  = (size (genomic_dict w) + Z.to_nat (matched_length cigar_arr))%nat.
Proof.
  intros Hpos. revert w.
  induction Hpos as [|[n c] l Hn Hl IH]; intros w Hw; cbn [fold_left matched_length].
  - simpl. lia.
  - rewrite IH by (by apply ordered_walk_entry). rewrite walk_entry_size by exact Hw.
    cbn [fst] in Hn. pose proof (matched_length_nonneg l Hl).
    destruct (code_in consuming_both c); lia.
Qed.

(** The floor is kept by every entry. *)
Lemma floored_step_both (s : Z) (w : walk) : floored s w → floored s (step_both w).
Proof.
  intros (Ht & Hc & Hl). split; [simpl; lia|]. split; [simpl; lia|].
  intros k v. unfold step_both; cbn [genomic_dict]. rewrite lookup_insert.
  case_decide.
  - intros [= <-]. lia.
  - intros Hv. apply Hl in Hv. lia.
Qed.

Lemma floored_step_reference (s : Z) (w : walk) :
  floored s w → floored s (step_reference w).
Proof.
  intros (Ht & Hc & Hl). split; [simpl; lia|]. split; [simpl; lia|].
  intros k v Hv. apply Hl in Hv. lia.
Qed.

Lemma floored_step_query (s : Z) (w : walk) : floored s w → floored s (step_query w).
Proof.
  intros (Ht & Hc & Hl). split; [simpl; lia|]. split; [simpl; lia|].
  intros k v Hv. apply Hl in Hv. lia.
Qed.

Lemma floored_walk_entry (s : Z) (w : walk) (entry : cigar_entry) :
  floored s w → floored s (walk_entry w entry).
Proof.
  intros Hw. unfold walk_entry.
  repeat case_match; try assumption;
    apply for_range_inv;
    auto using floored_step_both, floored_step_reference, floored_step_query.
Qed.

Lemma floored_fold (s : Z) (cigar_arr : list cigar_entry) (w : walk) :
  floored s w → floored s (fold_left walk_entry cigar_arr w).
Proof.
  revert w. induction cigar_arr as [|e l IH]; intros w Hw; simpl; [exact Hw|].
  apply IH, floored_walk_entry, Hw.
Qed.

(** An entry only adds keys: what is in the dictionary stays. *)
Lemma walk_entry_extends (w : walk) (entry : cigar_entry) :
  ordered w → genomic_dict w ⊆ genomic_dict (walk_entry w entry).
Proof.
  intros Hw. destruct entry as [n c]. rewrite walk_entry_cases. unfold for_range.
  destruct (code_in consuming_both c).
  - induction (Z.to_nat n) as [|k IH]; [done|].
    rewrite for_range_succ. etrans; [exact IH|].
    assert (Ho : ordered (Nat.iter k step_both w)).
    { clear IH. induction k; simpl; auto using ordered_step_both. }
    unfold step_both at 1; cbn [genomic_dict]. apply insert_subseteq.
    destruct (genomic_dict (Nat.iter k step_both w) !! tr_idx (Nat.iter k step_both w))
      as [v|] eqn:Hv; [|reflexivity].
    apply Ho in Hv. lia.
  - destruct (code_in reference_only c); [by rewrite iter_reference|].
    destruct (code_in query_only c); [by rewrite iter_query | done].
Qed.

Lemma fold_extends (cigar_arr : list cigar_entry) (w : walk) :
  ordered w → genomic_dict w ⊆ genomic_dict (fold_left walk_entry cigar_arr w).
Proof.
  revert w. induction cigar_arr as [|e l IH]; intros w Hw; simpl; [done|].
  etrans; [by apply walk_entry_extends|]. by apply IH, ordered_walk_entry.
Qed.

(** A shift between two walks is kept by every entry. *)
Lemma shifted_walk_entry (dk dv : Z) (w w' : walk) (entry : cigar_entry) :
  shifted dk dv w w' → shifted dk dv (walk_entry w entry) (walk_entry w' entry).
Proof.
  intros Hs. unfold walk_entry.
  assert (Hiter : ∀ step,
             (∀ a b, shifted dk dv a b → shifted dk dv (step a) (step b)) →
             shifted dk dv (for_range entry.1 step w) (for_range entry.1 step w')).
  { intros step Hstep. unfold for_range.
    induction (Z.to_nat entry.1); simpl; auto. }
  repeat case_match; try assumption; apply Hiter; clear;
    intros a b (Ht & Hc & Hl); repeat split; simpl; try lia; try exact Hl.
  intros k. rewrite !lookup_insert, Ht, Hc.
  repeat case_decide; try lia; [reflexivity | apply Hl].
Qed.

Lemma shifted_fold (dk dv : Z) (cigar_arr : list cigar_entry) (w w' : walk) :
  shifted dk dv w w' →
  shifted dk dv (fold_left walk_entry cigar_arr w) (fold_left walk_entry cigar_arr w').
Proof.
  revert w w'. induction cigar_arr as [|e l IH]; intros w w' Hs; simpl; [exact Hs|].
  apply IH, shifted_walk_entry, Hs.
Qed.



End WalkMore.

(** ** Further properties of [generate_genomic_dict] *)

Lemma example_cigar_arr_nonneg : Forall (λ e : cigar_entry, 0 ≤ e.1) example_cigar_arr.
Proof. unfold example_cigar_arr. repeat constructor; cbn [fst]; lia. Qed.



(** X2. When no length is negative, the coordinate map has as many keys
    as the M, = and X operations have positions, whatever the other
    operations are. *)
Theorem coordinate_map_size (s : Z) (cigar_arr : list cigar_entry) :
  Forall (λ e : cigar_entry, 0 ≤ e.1) cigar_arr →
  size (generate_genomic_dict s cigar_arr) = Z.to_nat (matched_length cigar_arr).
Proof.
  intros Hpos. unfold generate_genomic_dict, generate_walk.
  rewrite (generate_walk_size _ _ Hpos (ordered_start s)). simpl.
  rewrite map_size_empty. lia.
Qed.

Lemma coordinate_map_size_witness :
  Forall (λ e : cigar_entry, 0 ≤ e.1) example_cigar_arr
  ∧ size (generate_genomic_dict 3 example_cigar_arr) = 23%nat.
Proof.
  split; [exact example_cigar_arr_nonneg|].
  rewrite (coordinate_map_size 3 _ example_cigar_arr_nonneg). reflexivity.
Defined.



(** X4. Reading more of a CIGAR sequence only adds to the coordinate map:
    the map of a sequence holds, unchanged, every pair of the map of each
    of its prefixes. *)
Theorem coordinate_map_prefix (s : Z) (cigar_arr more : list cigar_entry) :
  generate_genomic_dict s cigar_arr ⊆ generate_genomic_dict s (cigar_arr ++ more).
Proof.
  unfold generate_genomic_dict, generate_walk. rewrite fold_left_app.
  apply fold_extends, ordered_fold, ordered_start.
Qed.

(** X5. Moving the start by [d] moves every image by [d] and leaves the
    keys as they are. *)
Theorem start_shift_shifts_images (s d : Z) (cigar_arr : list cigar_entry) :
  generate_genomic_dict (s + d) cigar_arr
  = (λ v, v + d) <$> generate_genomic_dict s cigar_arr.
Proof.
  unfold generate_genomic_dict, generate_walk.
  destruct (shifted_fold 0 d cigar_arr
              {| genomic_dict := ∅; tr_idx := 0; chr_idx := s |}
              {| genomic_dict := ∅; tr_idx := 0; chr_idx := s + d |})
    as (_ & _ & Hl).
  { split; [simpl; lia|]. split; [reflexivity|].
    intros k. simpl. by rewrite !lookup_empty. }
  apply map_eq. intros k. rewrite Hl, lookup_fmap. by rewrite Z.sub_0_r.
Qed.


(** X7. A leading I or S operation of length [n] moves every key up by
    [n]: the offsets below [n] are not keys, and the offset [k] has the
    image that [k - n] has without the operation. *)
Theorem leading_clip_shifts_keys (s n : Z) (c : ascii) (cigar_arr : list cigar_entry)
    (k : Z) :
  c ∈ query_only → 0 ≤ n →
  generate_genomic_dict s ((n, c) :: cigar_arr) !! k
  = generate_genomic_dict s cigar_arr !! (k - n)
  ∧ (k < n → generate_genomic_dict s ((n, c) :: cigar_arr) !! k = None).
Proof.
  intros Hc Hn.
  assert (Hk : generate_genomic_dict s ((n, c) :: cigar_arr) !! k
               = generate_genomic_dict s cigar_arr !! (k - n)).
  { unfold generate_genomic_dict, generate_walk. cbn [fold_left].
    apply code_in_elem_of in Hc.
    destruct (classes_exclusive c) as [Hb Hr].
    rewrite walk_entry_cases.
    destruct (code_in consuming_both c) eqn:Eb; [destruct (Hb eq_refl); congruence|].
    destruct (code_in reference_only c) eqn:Er; [rewrite (Hr eq_refl) in Hc; congruence|].
    rewrite Hc. unfold for_range. rewrite iter_query. cbn [genomic_dict tr_idx chr_idx].
    destruct (shifted_fold n 0 cigar_arr
                {| genomic_dict := ∅; tr_idx := 0; chr_idx := s |}
                {| genomic_dict := ∅; tr_idx := 0 + Z.of_nat (Z.to_nat n);
                   chr_idx := s |})
      as (_ & _ & Hl).
    { split; [simpl; lia|]. split; [simpl; lia|].
      intros j. simpl. by rewrite !lookup_empty. }
    rewrite Hl. destruct (_ !! (k - n)) as [v|]; simpl; [f_equal; lia | reflexivity]. }
  split; [exact Hk|]. intros Hlt. rewrite Hk.
  destruct (generate_genomic_dict s cigar_arr !! (k - n)) as [v|] eqn:Hv; [|reflexivity].
  unfold generate_genomic_dict in Hv.
  destruct (floored_fold s cigar_arr
              {| genomic_dict := ∅; tr_idx := 0; chr_idx := s |}) as (_ & _ & Hf).
  { split; [simpl; lia|]. split; [simpl; lia|].
    intros k' v'. simpl. rewrite lookup_empty. discriminate. }
  apply Hf in Hv. lia.
Qed.

Lemma leading_clip_shifts_keys_witness :
  "S"%char ∈ query_only ∧ 0 ≤ 3
  ∧ generate_genomic_dict 10 [(3, "S"%char); (5, "M"%char)] !! 3 = Some 10
  ∧ generate_genomic_dict 10 [(3, "S"%char); (5, "M"%char)] !! 2 = None.
Proof.
  assert (H : "S"%char ∈ query_only) by (unfold query_only; set_solver).
  split; [exact H|]. split; [lia|]. split.
  - rewrite (proj1 (leading_clip_shifts_keys 10 3 "S" [(5, "M"%char)] 3 H ltac:(lia))).
    vm_compute. reflexivity.
  - apply (leading_clip_shifts_keys 10 3 "S" [(5, "M"%char)] 2 H); lia.
Defined.

(** X8. A leading D or N operation of length [n] moves every image up by
    [n] and leaves the keys as they are. *)
Theorem leading_deletion_shifts_images (s n : Z) (c : ascii)
    (cigar_arr : list cigar_entry) :
  c ∈ reference_only → 0 ≤ n →
  generate_genomic_dict s ((n, c) :: cigar_arr)
  = (λ v, v + n) <$> generate_genomic_dict s cigar_arr.
Proof.
  intros Hc Hn. unfold generate_genomic_dict, generate_walk. cbn [fold_left].
  apply code_in_elem_of in Hc.
  destruct (classes_exclusive c) as [Hb _].
  rewrite walk_entry_cases.
  destruct (code_in consuming_both c) eqn:Eb; [destruct (Hb eq_refl); congruence|].
  rewrite Hc. unfold for_range. rewrite iter_reference.
  cbn [genomic_dict tr_idx chr_idx].
  destruct (shifted_fold 0 n cigar_arr
              {| genomic_dict := ∅; tr_idx := 0; chr_idx := s |}
              {| genomic_dict := ∅; tr_idx := 0;
                 chr_idx := s + Z.of_nat (Z.to_nat n) |})
    as (_ & _ & Hl).
  { split; [simpl; lia|]. split; [simpl; lia|].
    intros j. simpl. by rewrite !lookup_empty. }
  apply map_eq. intros k. rewrite Hl, lookup_fmap. by rewrite Z.sub_0_r.
Qed.

Lemma leading_deletion_shifts_images_witness :
  "D"%char ∈ reference_only ∧ 0 ≤ 7
  ∧ generate_genomic_dict 3 [(7, "D"%char); (2, "M"%char)] !! 1 = Some 11.
Proof.
  assert (H : "D"%char ∈ reference_only) by (unfold reference_only; set_solver).
  split; [exact H|]. split; [lia|].
  rewrite (leading_deletion_shifts_images 3 7 "D" [(2, "M"%char)] H ltac:(lia)).
  vm_compute. reflexivity.
Defined.

(** ** Further properties of [process_cigar_string] *)

Section ParserMore.

(** One turn of the parser's loop on an operator, once the buffer is
    known to hold a number. *)
Lemma process_cigar_loop_operator (c : ascii) (cs : list ascii)
    (acc : list cigar_entry) (buf : string) (n : Z) :
  operator_char c = true → buf ≠ "" → Text.int buf = Some n →
  process_cigar_loop (c :: cs) acc buf = process_cigar_loop cs (acc ++ [(n, c)]) "".
Proof.
  unfold operator_char. intros Hc Hbuf Hint. cbn [process_cigar_loop].
  rewrite Hc. cbn [negb]. apply String.eqb_neq in Hbuf. rewrite Hbuf.
  unfold int_of. rewrite Hint. unfold mbind, M_bind, mret, M_ret.
  by rewrite bind_ret_l.
Qed.

(** What a returning run of the loop has gone through at an operator. *)
Lemma process_cigar_loop_returned (c : ascii) (cs : list ascii)
    (acc : list cigar_entry) (buf : string) t l :
  operator_char c = true →
  process_cigar_loop (c :: cs) acc buf = (t, Returned l) →
  ∃ n, buf ≠ "" ∧ Text.int buf = Some n.
Proof.
  unfold operator_char. intros Hc. cbn [process_cigar_loop]. rewrite Hc. cbn [negb].
  destruct (String.eqb buf "") eqn:Hbuf; [discriminate|].
  apply String.eqb_neq in Hbuf. unfold int_of.
  destruct (Text.int buf) as [n|]; [eauto | discriminate].
Qed.

Lemma process_cigar_loop_codes (cs : list ascii) :
  ∀ (acc : list cigar_entry) (buf : string) t l,
    process_cigar_loop cs acc buf = (t, Returned l) →
    t = [] ∧ map snd l = map snd acc ++ List.filter operator_char cs.
Proof.
  induction cs as [|c cs IH]; intros acc buf t l.
  - cbn. intros [= <- <-]. by rewrite app_nil_r.
  - destruct (operator_char c) eqn:Hc.
    + intros Hrun.
      destruct (process_cigar_loop_returned c cs acc buf t l Hc Hrun) as (n & Hb & Hn).
      rewrite (process_cigar_loop_operator c cs acc buf n Hc Hb Hn) in Hrun.
      apply IH in Hrun as [-> ->]. split; [reflexivity|].
      cbn [List.filter]. rewrite Hc, map_app. cbn [map snd].
      by rewrite <- app_assoc.
    + cbn [process_cigar_loop List.filter]. unfold operator_char in Hc.
      rewrite Hc. cbn [negb]. fold (operator_char c). unfold operator_char.
      rewrite Hc. apply IH.
Qed.

(** The list read so far only sits in front of what the loop adds. *)
Lemma process_cigar_loop_acc (cs : list ascii) :
  ∀ (acc : list cigar_entry) (buf : string),
    process_cigar_loop cs acc buf
    = match process_cigar_loop cs [] buf with
      | (t, Returned l) => (t, Returned (acc ++ l))
      | (t, Raised e) => (t, Raised e)
      end.
Proof.
  induction cs as [|c cs IH]; intros acc buf.
  - cbn. by rewrite app_nil_r.
  - cbn [process_cigar_loop].
    destruct (negb (Text.isalpha c || Ascii.eqb c "=")); [apply IH|].
    destruct (String.eqb buf ""); [reflexivity|].
    unfold int_of. destruct (Text.int buf) as [n|]; [|reflexivity].
    unfold mbind, M_bind, mret, M_ret. rewrite !bind_ret_l.
    rewrite (IH (acc ++ [(n, c)])), (IH ([] ++ [(n, c)])).
    destruct (process_cigar_loop cs [] "") as [t [l|e]]; [|reflexivity].
    by rewrite <- app_assoc.
Qed.

(** After a text that ends with an operator the loop starts afresh. *)
Lemma process_cigar_loop_complete (cs : list ascii) (c : ascii) :
  operator_char c = true →
  ∀ (acc : list cigar_entry) (buf : string) t l (more : list ascii),
    process_cigar_loop (cs ++ [c]) acc buf = (t, Returned l) →
    process_cigar_loop (cs ++ c :: more) acc buf = process_cigar_loop more l "".
Proof.
  intros Hc. induction cs as [|x cs IH]; intros acc buf t l more Hrun.
  - cbn [app] in *.
    destruct (process_cigar_loop_returned c [] acc buf t l Hc Hrun) as (n & Hb & Hn).
    rewrite (process_cigar_loop_operator c _ acc buf n Hc Hb Hn) in Hrun.
    rewrite (process_cigar_loop_operator c _ acc buf n Hc Hb Hn).
    cbn in Hrun. by injection Hrun as _ <-.
  - cbn [app] in *. destruct (operator_char x) eqn:Hx.
    + destruct (process_cigar_loop_returned x _ acc buf t l Hx Hrun) as (n & Hb & Hn).
      rewrite (process_cigar_loop_operator x _ acc buf n Hx Hb Hn) in Hrun.
      rewrite (process_cigar_loop_operator x _ acc buf n Hx Hb Hn).
      by apply (IH _ _ t).
    + cbn [process_cigar_loop] in *. unfold operator_char in Hx.
      rewrite Hx in *. cbn [negb] in *. by apply (IH _ _ t).
Qed.

(** A run that stops early stops the same way whatever follows. *)
Lemma process_cigar_loop_raised (cs : list ascii) :
  ∀ (acc : list cigar_entry) (buf : string) t e (more : list ascii),
    process_cigar_loop cs acc buf = (t, Raised e) →
    process_cigar_loop (cs ++ more) acc buf = (t, Raised e).
Proof.
  induction cs as [|c cs IH]; intros acc buf t e more.
  - cbn. discriminate.
  - cbn [app process_cigar_loop].
    destruct (negb (Text.isalpha c || Ascii.eqb c "=")); [apply IH|].
    destruct (String.eqb buf ""); [done|].
    unfold int_of. destruct (Text.int buf) as [n|]; [|done].
    unfold mbind, M_bind, mret, M_ret. rewrite !bind_ret_l. apply IH.
Qed.

Lemma parsed_codes_nil (cigar_string : string) t l :
  process_cigar_string cigar_string = (t, Returned l) → t = [].
Proof. intros Hrun. by apply process_cigar_loop_codes in Hrun as [-> _]. Qed.

End ParserMore.

(** X9. For every string the parser accepts, it prints nothing and the
    codes of its output are the letters and [=] signs of the string, in
    the order and in the letter case they have there. *)
Theorem parsed_codes_are_operator_characters (cigar_string : string)
    (t : list event) (l : list cigar_entry) :
  process_cigar_string cigar_string = (t, Returned l) →
  t = []
  ∧ map snd l = List.filter operator_char (list_ascii_of_string cigar_string).
Proof. intros Hrun. by apply process_cigar_loop_codes in Hrun. Qed.

Lemma parsed_codes_are_operator_characters_witness :
  process_cigar_string "8m3=2x" = ([], Returned [(8, "m"); (3, "="); (2, "x")]%char)
  ∧ map snd [(8, "m"); (3, "="); (2, "x")]%char
    = List.filter operator_char (list_ascii_of_string "8m3=2x").
Proof.
  split; [reflexivity|].
  exact (proj2 (parsed_codes_are_operator_characters "8m3=2x" [] _ eq_refl)).
Defined.

(** X10. Parsing goes along with concatenation: when a string that ends
    with an operator and a second string are both accepted, the string
    made of the first followed by the second is accepted, and its output
    is the output of the first followed by the output of the second. *)
Theorem parse_concatenation (a b : string) (c : ascii) (la lb : list cigar_entry)
    (ta tb : list event) :
  operator_char c = true →
  process_cigar_string (a +:+ String c "") = (ta, Returned la) →
  process_cigar_string b = (tb, Returned lb) →
  process_cigar_string ((a +:+ String c "") +:+ b) = ([], Returned (la ++ lb)).
Proof.
  intros Hc Ha Hb.
  apply parsed_codes_nil in Hb as Hb'. subst tb.
  unfold process_cigar_string in *.
  rewrite !list_ascii_of_string_app in *. cbn [list_ascii_of_string] in *.
  rewrite <- app_assoc. cbn [app].
  rewrite (process_cigar_loop_complete _ c Hc [] "" ta la _ Ha).
  rewrite process_cigar_loop_acc, Hb. reflexivity.
Qed.

Lemma parse_concatenation_witness :
  operator_char "M" = true
  ∧ process_cigar_string (("8" +:+ "M") +:+ "7D")
    = ([], Returned ([(8, "M"%char)] ++ [(7, "D"%char)])).
Proof.
  split; [reflexivity|].
  exact (parse_concatenation "8" "7D" "M" _ _ [] [] eq_refl eq_refl eq_refl).
Defined.

(** X11. A string the parser stops on is stopped on in the same way,
    with the same printed line, whatever is put after it. *)
Theorem parse_failure_persists (a b : string) (t : list event) (e : exn) :
  process_cigar_string a = (t, Raised e) →
  process_cigar_string (a +:+ b) = (t, Raised e).
Proof.
  unfold process_cigar_string. rewrite list_ascii_of_string_app.
  apply process_cigar_loop_raised.
Qed.

Lemma parse_failure_persists_witness :
  process_cigar_string "8MX" = ([Printed "Error! Wrong CIGAR string format"],
                                 Raised SystemExit)
  ∧ process_cigar_string ("8MX" +:+ "3D")
    = ([Printed "Error! Wrong CIGAR string format"], Raised SystemExit).
Proof.
  split; [reflexivity|].
  exact (parse_failure_persists "8MX" "3D" _ _ eq_refl).
Defined.

(** ** Dictionaries in insertion order: lookups, keys and folds *)

Section Dict.

Context {V : Type}.

Lemma dict_get_set_eq (k : string) (v : V) (d : dict V) :
  dict_get k (dict_set k v d) = Some v.
Proof.
  induction d as [|[k' v'] d IH]; cbn [dict_set dict_get].
  - by rewrite String.eqb_refl.
  - destruct (String.eqb k k') eqn:Hk; cbn [dict_get]; rewrite Hk; [reflexivity | exact IH].
Qed.

Lemma dict_get_set_ne (k k' : string) (v : V) (d : dict V) :
  k ≠ k' → dict_get k' (dict_set k v d) = dict_get k' d.
Proof.
  intros Hne. induction d as [|[j w] d IH]; cbn [dict_set dict_get].
  - apply not_eq_sym, String.eqb_neq in Hne. by rewrite Hne.
  - destruct (String.eqb k j) eqn:Hk; cbn [dict_get].
    + apply String.eqb_eq in Hk. subst j.
      apply not_eq_sym, String.eqb_neq in Hne. by rewrite Hne.
    + destruct (String.eqb k' j); [reflexivity | exact IH].
Qed.

Lemma dict_set_fresh (k : string) (v : V) (d : dict V) :
  k ∉ map fst d → dict_set k v d = d ++ [(k, v)].
Proof.
  induction d as [|[j w] d IH]; cbn [dict_set map fst app]; [reflexivity|].
  intros Hk. apply not_elem_of_cons in Hk as [Hne Hk].
  apply String.eqb_neq in Hne. rewrite Hne. by rewrite IH.
Qed.

Lemma dict_set_keys (k : string) (v : V) (d : dict V) :
  map fst (dict_set k v d)
  = if bool_decide (k ∈ map fst d) then map fst d else map fst d ++ [k].
Proof.
  induction d as [|[j w] d IH]; cbn [dict_set map fst].
  - by rewrite bool_decide_false by apply not_elem_of_nil.
  - destruct (String.eqb k j) eqn:Hk.
    + apply String.eqb_eq in Hk. subst j. cbn [map fst].
      by rewrite bool_decide_true by apply list_elem_of_here.
    + apply String.eqb_neq in Hk. cbn [map fst]. rewrite IH.
      destruct (bool_decide (k ∈ map fst d)) eqn:Hin.
      * apply bool_decide_eq_true in Hin.
        by rewrite bool_decide_true by (by apply list_elem_of_further).
      * apply bool_decide_eq_false in Hin.
        rewrite bool_decide_false; [reflexivity|].
        intros Hc. apply elem_of_cons in Hc as [?|?]; done.
Qed.

Lemma dict_set_NoDup (k : string) (v : V) (d : dict V) :
  NoDup (map fst d) → NoDup (map fst (dict_set k v d)).
Proof.
  intros Hd. rewrite dict_set_keys. case_bool_decide as Hin; [exact Hd|].
  apply NoDup_app. split; [exact Hd|]. split; [|apply NoDup_singleton].
  intros x Hx Hx'. apply list_elem_of_singleton in Hx'. by subst x.
Qed.

Lemma dict_set_key_elem (k j : string) (v : V) (d : dict V) :
  j ∈ map fst (dict_set k v d) ↔ j = k ∨ j ∈ map fst d.
Proof.
  rewrite dict_set_keys. case_bool_decide as Hin.
  - split; [by right|]. by intros [->|?].
  - rewrite elem_of_app, list_elem_of_singleton. tauto.
Qed.

Lemma dict_get_elem (k : string) (v : V) (d : dict V) :
  dict_get k d = Some v → (k, v) ∈ d.
Proof.
  induction d as [|[j w] d IH]; cbn [dict_get]; [discriminate|].
  destruct (String.eqb k j) eqn:Hk.
  - apply String.eqb_eq in Hk. subst j. intros [= ->]. apply list_elem_of_here.
  - intros H. apply list_elem_of_further, IH, H.
Qed.

End Dict.

(** A fold that sets one key a turn, on keys that are new and distinct,
    is a map put at the end. *)
Lemma fold_dict_set_map {A B} (f : A → B) (l : dict A) (acc : dict B) :
  NoDup (map fst acc ++ map fst l) →
  fold_left (λ d '(k, a), dict_set k (f a) d) l acc
  = acc ++ map (λ '(k, a), (k, f a)) l.
Proof.
  revert acc. induction l as [|[k a] l IH]; intros acc Hnd; cbn [fold_left map].
  - by rewrite app_nil_r.
  - cbn [map fst] in Hnd.
    rewrite dict_set_fresh.
    + rewrite IH.
      * by rewrite <- app_assoc.
      * rewrite map_app. cbn [map fst]. by rewrite <- app_assoc.
    + apply NoDup_app in Hnd as (_ & Hdis & _). intros Hin.
      apply (Hdis k Hin). apply list_elem_of_here.
Qed.

(** A property of the values that each turn of such a fold sets holds of
    the dictionary it builds. *)
Lemma fold_dict_set_Forall {A B} (P : string * B → Prop) (f : A → B)
    (l : dict A) (acc : dict B) :
  Forall (λ e, ∀ k, P (k, f e.2)) l → Forall P acc →
  Forall P (fold_left (λ d '(k, a), dict_set k (f a) d) l acc).
Proof.
  intros Hl. revert acc. induction Hl as [|[k a] l Ha _ IH]; intros acc Hacc;
    cbn [fold_left]; [exact Hacc|].
  apply IH, dict_set_Forall; [exact Ha | exact Hacc].
Qed.

(** ** The build of the registry, line by line *)

Section Registry.

Lemma check_genome_map_line_format_trace (arr : list string) :
  check_genome_map_line_format arr = ([], Returned tt)
  ∨ ∃ msg, msg ∈ build_errors
           ∧ check_genome_map_line_format arr = ([Printed msg], Raised SystemExit).
Proof.
  unfold check_genome_map_line_format, build_errors.
  repeat case_match; [right; eexists; split; [|reflexivity]; set_solver.. | by left].
Qed.

Lemma process_cigar_loop_trace (cs : list ascii) :
  ∀ (acc : list cigar_entry) (buf : string),
    (∃ l, process_cigar_loop cs acc buf = ([], Returned l))
    ∨ process_cigar_loop cs acc buf = ([], Raised ValueError)
    ∨ process_cigar_loop cs acc buf
      = ([Printed "Error! Wrong CIGAR string format"], Raised SystemExit).
Proof.
  induction cs as [|c cs IH]; intros acc buf.
  - left. by eexists.
  - cbn [process_cigar_loop].
    destruct (negb _); [apply IH|].
    destruct (String.eqb buf ""); [by right; right|].
    unfold int_of. destruct (Text.int buf) as [n|]; [|by right; left].
    unfold mbind, M_bind, mret, M_ret. rewrite bind_ret_l. apply IH.
Qed.

Lemma process_cigar_string_trace (cigar_string : string) :
  (∃ l, process_cigar_string cigar_string = ([], Returned l))
  ∨ process_cigar_string cigar_string = ([], Raised ValueError)
  ∨ process_cigar_string cigar_string
    = ([Printed "Error! Wrong CIGAR string format"], Raised SystemExit).
Proof. apply process_cigar_loop_trace. Qed.

(** One line of the genome mapping file that the build gets past. *)
Lemma create_loop_cons (rows : list string) (rest : list (list string))
    (d d' : dict (dict alignment)) t :
  create_loop (rows :: rest) d = (t, Returned d') →
  ∃ s c,
    check_genome_map_line_format rows = ([], Returned tt)
    ∧ Text.int (field 2 rows) = Some s
    ∧ process_cigar_string (field 3 rows) = ([], Returned c)
    ∧ create_loop rest
        (dict_set (field 0 rows)
           [(field 1 rows, {| start_coord := s; cigar := c |})] d)
      = (t, Returned d').
Proof.
  cbn [create_loop]. unfold mbind, M_bind.
  destruct (check_genome_map_line_format_trace rows) as [-> | (msg & _ & ->)];
    [|discriminate].
  fold (@ret unit tt). rewrite bind_ret_l. unfold int_of.
  destruct (Text.int (field 2 rows)) as [s|]; [|discriminate].
  unfold mret, M_ret. rewrite bind_ret_l.
  destruct (process_cigar_string_trace (field 3 rows)) as [[c Hc] | [Hc | Hc]];
    rewrite Hc; [|discriminate..].
  fold (@ret (list cigar_entry) c). rewrite bind_ret_l. intros Hrest.
  exists s, c. by repeat split.
Qed.

(** What the build prints, by the way it ends. *)
Lemma create_loop_trace (genome_map : list (list string)) :
  ∀ (d : dict (dict alignment)) t r,
    create_loop genome_map d = (t, r) →
    match r with
    | Returned _ => t = []
    | Raised ValueError => t = []
    | Raised SystemExit => ∃ msg, msg ∈ build_errors ∧ t = [Printed msg]
    end.
Proof.
  induction genome_map as [|rows rest IH]; intros d t r.
  - cbn. by intros [= <- <-].
  - cbn [create_loop]. unfold mbind, M_bind.
    destruct (check_genome_map_line_format_trace rows) as [-> | (msg & Hmsg & ->)].
    + fold (@ret unit tt). rewrite bind_ret_l. unfold int_of.
      destruct (Text.int (field 2 rows)) as [s|].
      * unfold mret, M_ret. rewrite bind_ret_l.
        destruct (process_cigar_string_trace (field 3 rows)) as [[c Hc] | [Hc | Hc]];
          rewrite Hc.
        -- fold (@ret (list cigar_entry) c). rewrite bind_ret_l. apply IH.
        -- cbn. by intros [= <- <-].
        -- cbn. intros [= <- <-]. eexists. split; [|reflexivity].
           unfold build_errors. set_solver.
      * cbn. by intros [= <- <-].
    + cbn. intros [= <- <-]. eauto.
Qed.

(** Lines that do not name a transcript leave its entry as it is. *)
Lemma create_loop_other (tr : string) (genome_map : list (list string)) :
  Forall (λ rows, field 0 rows ≠ tr) genome_map →
  ∀ (d d' : dict (dict alignment)) t,
    create_loop genome_map d = (t, Returned d') →
    dict_get tr d' = dict_get tr d.
Proof.
  induction 1 as [|rows rest Hne _ IH]; intros d d' t Hrun.
  - cbn in Hrun. by injection Hrun as _ <-.
  - apply create_loop_cons in Hrun as (s & c & _ & _ & _ & Hrest).
    rewrite (IH _ _ _ Hrest). by apply dict_get_set_ne.
Qed.

(** The build of a file in two parts. *)
Lemma create_loop_app (pre post : list (list string)) :
  ∀ (d d' : dict (dict alignment)) t,
    create_loop (pre ++ post) d = (t, Returned d') →
    ∃ d1, create_loop pre d = ([], Returned d1)
          ∧ create_loop post d1 = (t, Returned d').
Proof.
  induction pre as [|rows pre IH]; intros d d' t Hrun; cbn [app] in Hrun.
  - exists d. by split.
  - apply create_loop_cons in Hrun as (s & c & Hchk & Hint & Hc & Hrest).
    apply IH in Hrest as (d1 & Hpre & Hpost). exists d1. split; [|exact Hpost].
    cbn [create_loop]. unfold mbind, M_bind. rewrite Hchk.
    fold (@ret unit tt). rewrite bind_ret_l. unfold int_of. rewrite Hint.
    unfold mret, M_ret. rewrite bind_ret_l, Hc.
    fold (@ret (list cigar_entry) c). by rewrite bind_ret_l.
Qed.

Lemma create_loop_keys (genome_map : list (list string)) :
  ∀ (d d' : dict (dict alignment)) t,
    create_loop genome_map d = (t, Returned d') →
    (NoDup (map fst d) → NoDup (map fst d'))
    ∧ ∀ tr, tr ∈ map fst d'
            ↔ tr ∈ map fst d ∨ tr ∈ map (field 0) genome_map.
Proof.
  induction genome_map as [|rows rest IH]; intros d d' t Hrun.
  - cbn in Hrun. injection Hrun as _ <-. split; [done|].
    intros tr. cbn [map]. rewrite elem_of_nil. tauto.
  - apply create_loop_cons in Hrun as (s & c & _ & _ & _ & Hrest).
    apply IH in Hrest as [Hnd Hin]. split.
    + intros Hd. by apply Hnd, dict_set_NoDup.
    + intros tr. rewrite Hin, dict_set_key_elem. cbn [map]. rewrite elem_of_cons.
      tauto.
Qed.

End Registry.

Lemma dict_get_is_Some {V} (k : string) (d : dict V) :
  is_Some (dict_get k d) ↔ k ∈ map fst d.
Proof.
  induction d as [|[j w] d IH]; cbn [dict_get map fst].
  - split; [by intros [? [=]] | by intros ?%elem_of_nil].
  - rewrite elem_of_cons. destruct (String.eqb k j) eqn:Hk.
    + apply String.eqb_eq in Hk. split; [by left | eauto].
    + apply String.eqb_neq in Hk. rewrite IH. tauto.
Qed.

(** ** Further properties of the registry and of [map_coordinates] *)

(** X12. The build of the registry writes nothing to the output file and
    prints only when it stops: nothing when it returns or when [int]
    raises, one of its four error lines when it exits.  When it stops,
    the whole workflow stops the same way, before any query is read. *)
Theorem build_prints_only_when_it_stops (genome_map queries : list (list string))
    (t : list event) (r : outcome (dict (dict alignment))) :
  create_transcript_genomic_dict genome_map = (t, r) →
  match r with
  | Returned _ => t = []
  | Raised ValueError => t = []
  | Raised SystemExit => ∃ msg, msg ∈ build_errors ∧ t = [Printed msg]
  end
  ∧ ∀ e, r = Raised e →
         transcript_to_genomic_coordinates genome_map queries = (t, Raised e).
Proof.
  intros Hrun. split; [exact (create_loop_trace _ _ _ _ Hrun)|].
  intros e ->. unfold transcript_to_genomic_coordinates, mbind, M_bind.
  by rewrite Hrun.
Qed.

Lemma build_prints_only_when_it_stops_witness :
  create_transcript_genomic_dict [["TR1"; "CHR1"; "x"; "8M"]]
  = ([Printed "Error! Reference coordinate is invalid"], Raised SystemExit)
  ∧ transcript_to_genomic_coordinates [["TR1"; "CHR1"; "x"; "8M"]] [["TR1"; "4"]]
    = ([Printed "Error! Reference coordinate is invalid"], Raised SystemExit).
Proof.
  split; [reflexivity|].
  exact (proj2 (build_prints_only_when_it_stops
                  [["TR1"; "CHR1"; "x"; "8M"]] [["TR1"; "4"]] _ _ eq_refl)
           SystemExit eq_refl).
Defined.

(** X13. In the registry of an accepted genome mapping file, the entry of
    a transcript is made of the last line that names it and of nothing
    else: one chromosome, with the start and the parsed CIGAR of that
    line.  A line repeated for the same transcript and chromosome is so
    replaced by the later one. *)
Theorem registry_last_line (pre post : list (list string)) (rows : list string)
    (d : dict (dict alignment)) (t : list event) :
  create_transcript_genomic_dict (pre ++ rows :: post) = (t, Returned d) →
  Forall (λ other, field 0 other ≠ field 0 rows) post →
  ∃ s c,
    Text.int (field 2 rows) = Some s
    ∧ process_cigar_string (field 3 rows) = ([], Returned c)
    ∧ dict_get (field 0 rows) d
      = Some [(field 1 rows, {| start_coord := s; cigar := c |})].
Proof.
  unfold create_transcript_genomic_dict. intros Hrun Hpost.
  apply create_loop_app in Hrun as (d1 & _ & Hrun).
  apply create_loop_cons in Hrun as (s & c & _ & Hint & Hc & Hrest).
  exists s, c. split; [exact Hint|]. split; [exact Hc|].
  rewrite (create_loop_other _ _ Hpost _ _ _ Hrest). apply dict_get_set_eq.
Qed.

Lemma registry_last_line_witness :
  create_transcript_genomic_dict
    ([["TR1"; "CHR1"; "3"; "8M"]] ++ ["TR1"; "CHR1"; "5"; "2M1D"]
       :: [["TR2"; "CHR2"; "10"; "20M"]])
  = ([], Returned
           [("TR1", [("CHR1", {| start_coord := 5;
                                 cigar := [(2, "M"%char); (1, "D"%char)] |})]);
            ("TR2", [("CHR2", {| start_coord := 10; cigar := [(20, "M"%char)] |})])])
  ∧ ∃ s c,
      Text.int "5" = Some s
      ∧ process_cigar_string "2M1D" = ([], Returned c)
      ∧ dict_get "TR1"
          [("TR1", [("CHR1", {| start_coord := 5;
                                cigar := [(2, "M"%char); (1, "D"%char)] |})]);
           ("TR2", [("CHR2", {| start_coord := 10; cigar := [(20, "M"%char)] |})])]
        = Some [("CHR1", {| start_coord := s; cigar := c |})].
Proof.
  split; [reflexivity|].
  apply (registry_last_line [["TR1"; "CHR1"; "3"; "8M"]]
           [["TR2"; "CHR2"; "10"; "20M"]] ["TR1"; "CHR1"; "5"; "2M1D"] _ []).
  - reflexivity.
  - repeat constructor. cbn. discriminate.
Defined.

(** X14. The registry of an accepted genome mapping file has each
    transcript once, and a transcript is in it exactly when a line of the
    file has it as its first field. *)
Theorem registry_keys (genome_map : list (list string)) (d : dict (dict alignment))
    (t : list event) :
  create_transcript_genomic_dict genome_map = (t, Returned d) →
  NoDup (map fst d)
  ∧ ∀ tr, is_Some (dict_get tr d) ↔ tr ∈ map (field 0) genome_map.
Proof.
  intros Hrun. apply create_loop_keys in Hrun as [Hnd Hin]. split.
  - apply Hnd. constructor.
  - intros tr. rewrite dict_get_is_Some, Hin. cbn [map]. rewrite elem_of_nil. tauto.
Qed.

Lemma registry_keys_witness :
  create_transcript_genomic_dict
    [["TR1"; "CHR1"; "3"; "8M"]; ["TR2"; "CHR2"; "10"; "20M"]; ["TR1"; "CHR2"; "0"; "1M"]]
  = ([], Returned
           [("TR1", [("CHR2", {| start_coord := 0; cigar := [(1, "M"%char)] |})]);
            ("TR2", [("CHR2", {| start_coord := 10; cigar := [(20, "M"%char)] |})])])
  ∧ NoDup ["TR1"; "TR2"].
Proof.
  split; [reflexivity|].
  exact (proj1 (registry_keys
                  [["TR1"; "CHR1"; "3"; "8M"]; ["TR2"; "CHR2"; "10"; "20M"];
                   ["TR1"; "CHR2"; "0"; "1M"]] _ [] eq_refl)).
Defined.

(** X15. On a registry whose transcripts are distinct and whose
    chromosomes are distinct within a transcript, [map_coordinates] keeps
    the transcripts and the chromosomes, in their order, and puts the
    coordinate map of each alignment in its place. *)
Theorem map_coordinates_shape (d : dict (dict alignment)) :
  NoDup (map fst d) →
  Forall (λ e, NoDup (map fst e.2)) d →
  map_coordinates d
  = map (λ '(tr, chs), (tr, map (λ '(ch, al), (ch, coordinates_of al)) chs)) d.
Proof.
  intros Hnd Hall. unfold map_coordinates.
  etrans.
  { exact (fold_dict_set_map
             (λ chs : dict alignment,
                fold_left (λ inner '(ch, al),
                             dict_set ch (generate_genomic_dict (start_coord al)
                                            (cigar al)) inner) chs [])
             d [] Hnd). }
  cbn [app]. clear Hnd.
  induction Hall as [|[tr chs] l Hchs _ IH]; cbn [map]; [reflexivity|].
  rewrite IH. f_equal. f_equal. cbn [snd] in Hchs.
  exact (fold_dict_set_map coordinates_of chs [] Hchs).
Qed.

Lemma map_coordinates_shape_witness :
  NoDup (map fst [("TR1", [("CHR1", {| start_coord := 3; cigar := example_cigar_arr |})])])
  ∧ map_coordinates
      [("TR1", [("CHR1", {| start_coord := 3; cigar := example_cigar_arr |})])]
    = [("TR1", [("CHR1", generate_genomic_dict 3 example_cigar_arr)])].
Proof.
  assert (H1 : NoDup (map fst [("TR1", [("CHR1", {| start_coord := 3;
                                                    cigar := example_cigar_arr |})])])).
  { cbn. apply NoDup_singleton. }
  split; [exact H1|].
  rewrite (map_coordinates_shape _ H1); [reflexivity|].
  apply List.Forall_cons; [cbn; apply NoDup_singleton | apply List.Forall_nil].
Defined.

(** ** The format check of a genome mapping line *)

Section Check.







Lemma check_genome_map_line_format_passes (arr : list string) :
  check_genome_map_line_format arr = ([], Returned tt) →
  length arr = 4%nat
  ∧ Text.isdigit (field 2 arr) = true
  ∧ Text.search_digits_op "MIDNSHP=X" (list_ascii_of_string (field 3 arr)) = true.
Proof.
  unfold check_genome_map_line_format.
  destruct (length arr =? 4)%nat eqn:Hlen; cbn [negb]; [|discriminate].
  destruct (Text.isdigit (field 2 arr)); cbn [negb]; [|discriminate].
  destruct (Text.search_digits_op _ _); cbn [negb]; [|discriminate].
  intros _. apply Nat.eqb_eq in Hlen. by repeat split.
Qed.

(** ** Start coordinates *)

Lemma scan_digits_nonneg (cs : list ascii) :
  ∀ (prev : bool) (acc n : Z) (rest : list ascii),
    Text.scan_digits cs prev acc = Some (n, rest) → 0 ≤ acc → 0 ≤ n.
Proof.
  induction cs as [|c cs IH]; intros prev acc n rest; cbn [Text.scan_digits].
  - destruct prev; [discriminate|]. by intros [= <- _].
  - destruct (Text.is_decimal c) eqn:Hc.
    + intros H Hacc. apply (IH _ _ _ _ H).
      pose proof (digit_value_nonneg c Hc). lia.
    + destruct (Ascii.eqb c "_").
      * destruct prev; [discriminate|]. apply IH.
      * destruct prev; [discriminate|]. by intros [= <- _].
Qed.

(** A digit of [str.isdigit] that is not a decimal digit is not read by
    [int]. *)
Lemma int_other_digit (c : ascii) (s : string) :
  Text.isdigit_char c = true → Text.is_decimal c = false →
  Text.int (String c s) = None.
Proof.
  intros Hd Hn.
  destruct c as [[] [] [] [] [] [] [] []];
    try (vm_compute in Hd; discriminate Hd);
    try (vm_compute in Hn; discriminate Hn); reflexivity.
Qed.

Lemma int_isdigit_nonneg (s : string) (n : Z) :
  Text.isdigit s = true → Text.int s = Some n → 0 ≤ n.
Proof.
  destruct s as [|c s]; [discriminate|].
  unfold Text.isdigit. cbn [list_ascii_of_string forallb].
  intros H. apply andb_true_iff in H as [Hc _].
  destruct (Text.is_decimal c) eqn:Hdec.
  - rewrite (int_decimal_head c s Hdec).
    destruct (Text.scan_digits _ false 0) as [[m rest]|] eqn:Hscan; [|discriminate].
    destruct (forallb Text.int_space rest); [|discriminate].
    intros [= <-]. apply scan_digits_nonneg in Hscan; lia.
  - by rewrite (int_other_digit c s Hc Hdec).
Qed.

Lemma create_loop_starts (genome_map : list (list string)) :
  ∀ (d d' : dict (dict alignment)) t,
    create_loop genome_map d = (t, Returned d') →
    Forall (λ e, Forall (λ e' : string * alignment, 0 ≤ start_coord e'.2) e.2) d →
    Forall (λ e, Forall (λ e' : string * alignment, 0 ≤ start_coord e'.2) e.2) d'.
Proof.
  induction genome_map as [|rows rest IH]; intros d d' t Hrun Hd.
  - cbn in Hrun. by injection Hrun as _ <-.
  - apply create_loop_cons in Hrun as (s & c & Hchk & Hint & _ & Hrest).
    apply check_genome_map_line_format_passes in Hchk as (_ & Hdigit & _).
    apply (IH _ _ _ Hrest). apply dict_set_Forall; [|exact Hd].
    intros k. cbn [snd]. repeat constructor. cbn [snd start_coord].
    exact (int_isdigit_nonneg _ _ Hdigit Hint).
Qed.

End Check.



(** X17. For an accepted genome mapping file, no coordinate map of the
    registry has a negative key or a negative image: the queries are
    never answered with a negative genomic coordinate. *)
Theorem genomic_coordinates_nonnegative (genome_map : list (list string))
    (d : dict (dict alignment)) (t : list event)
    (tr ch : string) (chs : dict (gmap Z Z)) (m : gmap Z Z) (k v : Z) :
  create_transcript_genomic_dict genome_map = (t, Returned d) →
  dict_get tr (map_coordinates d) = Some chs →
  (ch, m) ∈ chs →
  m !! k = Some v →
  0 ≤ k ∧ 0 ≤ v.
Proof.
  intros Hrun Hget Hch Hv.
  apply create_loop_starts in Hrun; [|constructor].
  assert (Hall : Forall (λ e : string * dict (gmap Z Z),
                           Forall (λ e' : string * gmap Z Z,
                                     ∀ k v, e'.2 !! k = Some v → 0 ≤ k ∧ 0 ≤ v) e.2)
                   (map_coordinates d)).
  { unfold map_coordinates.
    apply (fold_dict_set_Forall
             (λ e : string * dict (gmap Z Z),
                Forall (λ e' : string * gmap Z Z,
                          ∀ k v, e'.2 !! k = Some v → 0 ≤ k ∧ 0 ≤ v) e.2)
             (λ chs : dict alignment,
                fold_left (λ inner '(ch, al),
                             dict_set ch (generate_genomic_dict (start_coord al)
                                            (cigar al)) inner) chs []));
      [|constructor].
    eapply Forall_impl; [exact Hrun|]. intros [tr' chs'] Hstarts key. cbn [snd] in *.
    apply (fold_dict_set_Forall
             (λ e' : string * gmap Z Z, ∀ k v, e'.2 !! k = Some v → 0 ≤ k ∧ 0 ≤ v)
             coordinates_of); [|constructor].
    eapply Forall_impl; [exact Hstarts|]. intros [ch' al] Hs key' k' v' Hv'.
    cbn [snd] in *. unfold coordinates_of, generate_genomic_dict in Hv'.
    destruct (floored_fold (start_coord al) (cigar al)
                {| genomic_dict := ∅; tr_idx := 0; chr_idx := start_coord al |})
      as (_ & _ & Hf).
    { split; [simpl; lia|]. split; [simpl; lia|].
      intros k0 v0. simpl. rewrite lookup_empty. discriminate. }
    apply Hf in Hv'. lia. }
  apply dict_get_elem in Hget.
  rewrite Forall_forall in Hall. pose proof (Hall _ Hget) as Hchs.
  cbn [snd] in Hchs. rewrite Forall_forall in Hchs.
  exact (Hchs _ Hch k v Hv).
Qed.

Lemma genomic_coordinates_nonnegative_witness :
  create_transcript_genomic_dict [["TR1"; "CHR1"; "3"; "8M"]]
  = ([], Returned [("TR1", [("CHR1", {| start_coord := 3;
                                        cigar := [(8, "M"%char)] |})])])
  ∧ (0 ≤ 7 ∧ 0 ≤ 10).
Proof.
  split; [reflexivity|].
  apply (genomic_coordinates_nonnegative [["TR1"; "CHR1"; "3"; "8M"]] _ []
           "TR1" "CHR1" [("CHR1", generate_genomic_dict 3 [(8, "M"%char)])]
           (generate_genomic_dict 3 [(8, "M"%char)]) 7 10 eq_refl).
  - reflexivity.
  - apply list_elem_of_here.
  - vm_compute. reflexivity.
Defined.

(** ** The loop over the queries *)

Section Queries.

Lemma for_each_concat {A} (xs ys : list A) (body : A → M unit) :
  for_each (xs ++ ys) body = (for_each xs body ;; for_each ys body).
Proof.
  induction xs as [|x xs IH]; cbn [app for_each].
  - unfold mbind, M_bind, mret, M_ret. by rewrite bind_ret_l.
  - rewrite IH. unfold mbind, M_bind. by rewrite bind_assoc.
Qed.

(** A turn that raises ends the loop: what comes after it is not run. *)
Lemma for_each_raised {A} (pre post : list A) (x : A) (body : A → M unit) t e :
  body x = (t, Raised e) →
  for_each (pre ++ x :: post) body = for_each (pre ++ [x]) body.
Proof.
  intros Hx. rewrite !for_each_concat. cbn [for_each].
  unfold mbind, M_bind. by rewrite Hx.
Qed.





End Queries.

(** ** Further properties of [merge_transcript_file] *)

(** X18. The queries are answered one after the other, none looking at
    another: a query file in two parts gives what the first part gives
    and then, if the first part did not stop the program, what the second
    part gives. *)
Theorem merge_transcript_file_app (first second : list (list string))
    (coord_map : dict (dict (gmap Z Z))) :
  merge_transcript_file (first ++ second) coord_map
  = (merge_transcript_file first coord_map ;;
     merge_transcript_file second coord_map).
Proof. apply for_each_concat. Qed.

(** X19. A query line that does not have two fields, or whose second
    field is not made of digits, stops the program with one printed error
    line: the queries after it are not answered, whatever they are. *)
Theorem malformed_query_stops (coord_map : dict (dict (gmap Z Z)))
    (queries : list string) (pre post : list (list string)) :
  length queries ≠ 2%nat ∨ Text.isdigit (field 1 queries) = false →
  (∃ msg, merge_query coord_map queries = ([Printed msg], Raised SystemExit))
  ∧ merge_transcript_file (pre ++ queries :: post) coord_map
    = merge_transcript_file (pre ++ [queries]) coord_map.
Proof.
  intros Hbad.
  assert (Hq : ∃ msg, merge_query coord_map queries
                      = ([Printed msg], Raised SystemExit)).
  { unfold merge_query, check_transcript_line_format.
    destruct Hbad as [Hlen | Hdig].
    - apply Nat.eqb_neq in Hlen. rewrite Hlen. by eexists.
    - destruct (length queries =? 2)%nat; [rewrite Hdig|]; by eexists. }
  split; [exact Hq|]. destruct Hq as [msg Hq].
  unfold merge_transcript_file. by apply (for_each_raised _ _ _ _ _ _ Hq).
Qed.

Lemma malformed_query_stops_witness :
  Text.isdigit "4x" = false
  ∧ merge_transcript_file ([["TR1"; "0"]] ++ ["TR1"; "4x"] :: [["TR1"; "1"]])
      [("TR1", [("CHR1", generate_genomic_dict 3 example_cigar_arr)])]
    = merge_transcript_file ([["TR1"; "0"]] ++ [["TR1"; "4x"]])
        [("TR1", [("CHR1", generate_genomic_dict 3 example_cigar_arr)])].
Proof.
  split; [reflexivity|].
  apply (malformed_query_stops _ ["TR1"; "4x"] [["TR1"; "0"]] [["TR1"; "1"]]).
  right. reflexivity.
Defined.





(** ** The whole workflow *)





(** ** Lines and fields *)

Section Lines.

Lemma rstrip_space (cs : list ascii) : forallb isspace cs = true → rstrip cs = [].
Proof.
  induction cs as [|c cs IH]; cbn [forallb rstrip]; [done|].
  intros H. apply andb_true_iff in H as [Hc Hcs]. by rewrite (IH Hcs), Hc.
Qed.

(** Text that ends with a character that is not white space keeps all of
    it; white space after it goes. *)
Lemma rstrip_app (body tail : list ascii) (x : ascii) :
  isspace x = false → forallb isspace tail = true →
  rstrip (body ++ x :: tail) = body ++ [x].
Proof.
  intros Hx Htail. induction body as [|c body IH]; cbn [app rstrip].
  - by rewrite (rstrip_space _ Htail), Hx.
  - rewrite IH. by destruct body.
Qed.

Lemma re_split_space_field (f rest piece : list ascii) (in_gap : bool) :
  forallb (λ c, negb (isspace c)) f = true → f ≠ [] ∨ in_gap = false →
  re_split_space (f ++ rest) piece in_gap = re_split_space rest (piece ++ f) false.
Proof.
  revert piece in_gap. induction f as [|c f IH]; intros piece in_gap Hf Hne.
  - destruct Hne as [?| ->]; [done|]. cbn [app]. by rewrite app_nil_r.
  - cbn [forallb] in Hf. apply andb_true_iff in Hf as [Hc Hf].
    apply negb_true_iff in Hc. cbn [app re_split_space]. rewrite Hc.
    rewrite (IH _ _ Hf) by (by right). by rewrite <- app_assoc.
Qed.

Lemma re_split_space_gap (sep rest : list ascii) :
  forallb isspace sep = true →
  re_split_space (sep ++ rest) [] true = re_split_space rest [] true.
Proof.
  induction sep as [|c sep IH]; cbn [forallb app re_split_space]; [done|].
  intros H. apply andb_true_iff in H as [-> Hsep]. by apply IH.
Qed.

Lemma re_split_space_separator (sep rest piece : list ascii) :
  forallb isspace sep = true → sep ≠ [] →
  re_split_space (sep ++ rest) piece false = piece :: re_split_space rest [] true.
Proof.
  destruct sep as [|c sep]; [done|]. cbn [forallb app re_split_space].
  intros H _. apply andb_true_iff in H as [-> Hsep].
  by rewrite (re_split_space_gap _ _ Hsep).
Qed.

Lemma list_ascii_of_join_fields (f : string) (rest : list (string * string)) :
  list_ascii_of_string (join_fields f rest)
  = list_ascii_of_string f
    ++ concat (map (λ p, list_ascii_of_string p.1 ++ list_ascii_of_string p.2) rest).
Proof.
  revert f. induction rest as [|[sep g] rest IH]; intros f; cbn [join_fields map concat].
  - by rewrite app_nil_r.
  - rewrite !list_ascii_of_string_app, IH. cbn [fst snd]. by rewrite <- !app_assoc.
Qed.

Lemma string_nonempty (s : string) : s ≠ "" → list_ascii_of_string s ≠ [].
Proof. by destruct s. Qed.

Lemma re_split_space_fields (rest : list (string * string)) :
  Forall (λ p, p.1 ≠ "" ∧ all_space p.1 ∧ p.2 ≠ "" ∧ space_free p.2) rest →
  ∀ piece,
    re_split_space
      (concat (map (λ p, list_ascii_of_string p.1 ++ list_ascii_of_string p.2) rest))
      piece false
    = piece :: map (λ p, list_ascii_of_string p.2) rest.
Proof.
  induction 1 as [|[sep g] rest (Hsep & Hsp & Hg & Hfree) _ IH]; intros piece;
    cbn [map concat]; [reflexivity|].
  cbn [fst snd] in *. rewrite <- app_assoc.
  rewrite (re_split_space_separator _ _ _ Hsp (string_nonempty _ Hsep)).
  rewrite (re_split_space_field _ _ _ _ Hfree) by (left; by apply string_nonempty).
  by rewrite IH.
Qed.

(** The text of a line of fields ends with a character that is not white
    space, unless it is empty. *)
Lemma fields_end_clean (rest : list (string * string)) :
  Forall (λ p, p.1 ≠ "" ∧ all_space p.1 ∧ p.2 ≠ "" ∧ space_free p.2) rest →
  ∀ f : list ascii,
    forallb (λ c, negb (isspace c)) f = true →
    f ++ concat (map (λ p, list_ascii_of_string p.1 ++ list_ascii_of_string p.2) rest)
    = []
    ∨ ∃ body x,
        f ++ concat (map (λ p, list_ascii_of_string p.1 ++ list_ascii_of_string p.2)
                       rest)
        = body ++ [x]
        ∧ isspace x = false.
Proof.
  induction 1 as [|[sep g] rest (Hsep & Hsp & Hg & Hfree) _ IH]; intros f Hf;
    cbn [map concat].
  - rewrite app_nil_r. destruct f as [|c f']; [by left|]. right.
    destruct (@exists_last _ (c :: f')) as (body & x & Hb); [done|].
    exists body, x. split; [exact Hb|]. rewrite Hb in Hf.
    rewrite forallb_app in Hf. apply andb_true_iff in Hf as [_ Hx].
    cbn in Hx. rewrite andb_true_r in Hx. by apply negb_true_iff.
  - cbn [fst snd] in *. right.
    destruct (IH (list_ascii_of_string g) Hfree) as [Hnil | (body & x & Hb & Hx)].
    + apply app_eq_nil in Hnil as [Hnil _]. by apply string_nonempty in Hg.
    + exists (f ++ list_ascii_of_string sep ++ body), x. split; [|exact Hx].
      rewrite <- !app_assoc. by rewrite Hb.
Qed.

Lemma split_line_blank (row : string) : all_space row → split_line row = [""].
Proof. intros H. unfold split_line. by rewrite (rstrip_space _ H). Qed.

Lemma re_split_space_free (cs : list ascii) :
  ∀ (piece : list ascii) (in_gap : bool),
    forallb (λ c, negb (isspace c)) piece = true →
    Forall (λ f, forallb (λ c, negb (isspace c)) f = true)
      (re_split_space cs piece in_gap).
Proof.
  induction cs as [|c cs IH]; intros piece in_gap Hp; cbn [re_split_space].
  - by repeat constructor.
  - destruct (isspace c) eqn:Hc.
    + destruct in_gap; [by apply IH | constructor; [exact Hp | by apply IH]].
    + apply IH. rewrite forallb_app, Hp. cbn. by rewrite Hc.
Qed.

Lemma re_split_space_nonempty (cs : list ascii) :
  ∀ (piece : list ascii) (in_gap : bool), re_split_space cs piece in_gap ≠ [].
Proof.
  induction cs as [|c cs IH]; intros piece in_gap; cbn [re_split_space]; [done|].
  destruct (isspace c); [destruct in_gap|]; by auto.
Qed.

(** The build of a registry whose first lines are accepted goes on from
    the registry they give. *)
Lemma create_loop_prefix (pre rest : list (list string)) :
  ∀ (d d1 : dict (dict alignment)),
    create_loop pre d = ([], Returned d1) →
    create_loop (pre ++ rest) d = create_loop rest d1.
Proof.
  induction pre as [|rows pre IH]; intros d d1 Hrun; cbn [app].
  - cbn in Hrun. by injection Hrun as <-.
  - apply create_loop_cons in Hrun as Hc.
    destruct Hc as (s & c & Hchk & Hint & Hc & Hrest).
    rewrite <- (IH _ _ Hrest). cbn [create_loop]. unfold mbind, M_bind.
    rewrite Hchk. fold (@ret unit tt). rewrite !bind_ret_l. unfold int_of.
    rewrite Hint. unfold mret, M_ret. rewrite !bind_ret_l, Hc.
    fold (@ret (list cigar_entry) c). by rewrite !bind_ret_l.
Qed.

End Lines.

(** ** Further properties of the two reading loops *)

(** X23. A line made of fields without white space, none empty but
    possibly the first, with a run of white space between two fields and
    any white space at its end, is split into exactly these fields: tabs,
    spaces and the newline at the end are all taken as white space. *)
Theorem split_line_fields (f tail : string) (rest : list (string * string)) :
  space_free f →
  Forall (λ p, p.1 ≠ "" ∧ all_space p.1 ∧ p.2 ≠ "" ∧ space_free p.2) rest →
  all_space tail →
  split_line (join_fields f rest +:+ tail) = f :: map snd rest.
Proof.
  intros Hf Hrest Htail. unfold split_line.
  rewrite list_ascii_of_string_app, list_ascii_of_join_fields.
  assert (Hstrip :
    rstrip ((list_ascii_of_string f
             ++ concat (map (λ p, list_ascii_of_string p.1
                                  ++ list_ascii_of_string p.2) rest))
            ++ list_ascii_of_string tail)
    = list_ascii_of_string f
      ++ concat (map (λ p, list_ascii_of_string p.1 ++ list_ascii_of_string p.2)
                   rest)).
  { destruct (fields_end_clean rest Hrest _ Hf) as [-> | (body & x & -> & Hx)].
    - by apply rstrip_space.
    - rewrite <- app_assoc. cbn [app]. by apply rstrip_app. }
  rewrite Hstrip.
  rewrite (re_split_space_field _ _ _ _ Hf) by (by right). cbn [app].
  rewrite (re_split_space_fields _ Hrest). cbn [map].
  rewrite string_of_list_ascii_of_string. f_equal.
  rewrite map_map. apply map_ext. intros [sep g]. cbn [snd].
  apply string_of_list_ascii_of_string.
Qed.

Lemma split_line_fields_witness :
  split_line (join_fields "TR1" [(tab, "CHR1"); (tab, "3"); (tab, "8M7D6M2I2M11D7M")]
              +:+ newline)
  = ["TR1"; "CHR1"; "3"; "8M7D6M2I2M11D7M"].
Proof.
  apply (split_line_fields "TR1" newline
           [(tab, "CHR1"); (tab, "3"); (tab, "8M7D6M2I2M11D7M")]).
  - reflexivity.
  - repeat (apply List.Forall_cons;
            [split; [discriminate|]; split; [reflexivity|];
             split; [discriminate | reflexivity]|]).
    apply List.Forall_nil.
  - reflexivity.
Defined.

(** X24. A line of white space only, an empty line among them, stops
    either reading loop when it is reached: it is split into one empty
    field, so the build of the registry exits on its number of columns,
    and so does the loop over the queries after the queries before it. *)
Theorem blank_line_stops (row : string) :
  all_space row →
  (∀ (pre post : list string) (d : dict (dict alignment)),
     create_transcript_genomic_dict_from_lines pre = ([], Returned d) →
     create_transcript_genomic_dict_from_lines (pre ++ row :: post)
     = ([Printed "Error! Genome mapping file must have 4 columns"],
        Raised SystemExit))
  ∧ (∀ (pre post : list string) (coord_map : dict (dict (gmap Z Z))),
       merge_transcript_file_from_lines (pre ++ row :: post) coord_map
       = (merge_transcript_file_from_lines pre coord_map ;;
          print "Error! Transcript Processing File must contain 2 columns" ;;
          sys_exit)).
Proof.
  intros Hrow. pose proof (split_line_blank row Hrow) as Hsplit. split.
  - intros pre post d Hpre.
    unfold create_transcript_genomic_dict_from_lines,
      create_transcript_genomic_dict in *.
    rewrite map_app. cbn [map].
    rewrite (create_loop_prefix _ _ _ _ Hpre), Hsplit. reflexivity.
  - intros pre post coord_map.
    unfold merge_transcript_file_from_lines, merge_transcript_file.
    rewrite map_app. cbn [map]. rewrite for_each_concat, Hsplit. cbn [for_each].
    unfold mbind, M_bind.
    destruct (for_each (map split_line pre) (merge_query coord_map)) as [t [[]|e]];
      reflexivity.
Qed.

Lemma blank_line_stops_witness :
  all_space newline
  ∧ create_transcript_genomic_dict_from_lines
      (["TR1 CHR1 3 8M"] ++ newline :: ["TR2 CHR2 10 20M"])
    = ([Printed "Error! Genome mapping file must have 4 columns"],
       Raised SystemExit).
Proof.
  split; [reflexivity|].
  apply (proj1 (blank_line_stops newline eq_refl) ["TR1 CHR1 3 8M"]
           ["TR2 CHR2 10 20M"]
           [("TR1", [("CHR1", {| start_coord := 3; cigar := [(8, "M"%char)] |})])]).
  reflexivity.
Defined.

(** X25. The fields a line is split into are never none, and none of
    them has white space in it. *)
Theorem split_line_space_free (row : string) :
  split_line row ≠ [] ∧ Forall space_free (split_line row).
Proof.
  unfold split_line. split.
  - pose proof (re_split_space_nonempty (rstrip (list_ascii_of_string row)) [] false).
    by destruct (re_split_space _ _ _).
  - apply Forall_map.
    eapply Forall_impl; [by apply re_split_space_free|].
    intros f Hf. unfold space_free. cbn beta.
    by rewrite list_ascii_of_string_of_list_ascii.
Qed.

(** ** The parser on a string of segments, and the place of each key *)

Section Segments.

Lemma append_empty_r (s : string) : s +:+ "" = s.
Proof.
  induction s as [|c s IH]; [reflexivity|].
  change (String c (s +:+ "") = String c s). by rewrite IH.
Qed.

Lemma append_assoc (a b c : string) : (a +:+ b) +:+ c = a +:+ (b +:+ c).
Proof.
  induction a as [|x a IH]; [reflexivity|].
  change (String x ((a +:+ b) +:+ c) = String x (a +:+ (b +:+ c))). by rewrite IH.
Qed.

(** Characters that are not operators go to the buffer. *)
Lemma process_cigar_loop_buffer (digits rest : list ascii) :
  forallb (λ c, negb (operator_char c)) digits = true →
  ∀ (acc : list cigar_entry) (buf : string),
    process_cigar_loop (digits ++ rest) acc buf
    = process_cigar_loop rest acc (buf +:+ string_of_list_ascii digits).
Proof.
  induction digits as [|c digits IH]; intros Hd acc buf; cbn [app string_of_list_ascii].
  - by rewrite append_empty_r.
  - cbn [forallb] in Hd. apply andb_true_iff in Hd as [Hc Hd].
    cbn [process_cigar_loop]. unfold operator_char in Hc. rewrite Hc.
    rewrite (IH Hd). f_equal. by rewrite append_assoc.
Qed.

Lemma process_cigar_loop_segments (segs : list (string * ascii)) (lens : list Z) :
  Forall2 segment_reads segs lens →
  ∀ acc : list cigar_entry,
    process_cigar_loop (list_ascii_of_string (cigar_text segs)) acc ""
    = ([], Returned (acc ++ zip lens (map snd segs))).
Proof.
  induction 1 as [|[digits c] n segs lens (Hne & Hd & Hint & Hc) _ IH]; intros acc.
  - cbn. by rewrite app_nil_r.
  - cbn [fst snd] in *. cbn [cigar_text map zip zip_with].
    rewrite !list_ascii_of_string_app. cbn [list_ascii_of_string app].
    rewrite (process_cigar_loop_buffer _ _ Hd).
    rewrite string_of_list_ascii_of_string. cbn [String.append].
    rewrite (process_cigar_loop_operator c _ acc digits n Hc Hne Hint).
    rewrite IH. by rewrite <- app_assoc.
Qed.



Lemma query_length_app (a b : list cigar_entry) :
  query_length (a ++ b) = query_length a + query_length b.
Proof.
  induction a as [|[n c] a IH]; cbn [app query_length]; [lia|]. rewrite IH. lia.
Qed.

Lemma reference_length_app (a b : list cigar_entry) :
  reference_length (a ++ b) = reference_length a + reference_length b.
Proof.
  induction a as [|[n c] a IH]; cbn [app reference_length]; [lia|]. rewrite IH. lia.
Qed.


End Segments.

(** X26. A CIGAR string made of segments, each a text without operators
    that [int] reads as a number and then a letter or [=], is accepted,
    and its output has, for each segment in turn, the number of the
    segment with its operator. *)
Theorem segments_parse (segs : list (string * ascii)) (lens : list Z) :
  Forall2 segment_reads segs lens →
  process_cigar_string (cigar_text segs) = ([], Returned (zip lens (map snd segs))).
Proof.
  intros H. unfold process_cigar_string.
  by rewrite (process_cigar_loop_segments _ _ H []).
Qed.

Lemma segments_parse_witness :
  Forall2 segment_reads [("8", "M"%char); ("007", "d"%char); ("1_0", "="%char)] [8; 7; 10]
  ∧ process_cigar_string "8M007d1_0="
    = ([], Returned [(8, "M"); (7, "d"); (10, "=")]%char).
Proof.
  assert (H : Forall2 segment_reads
                [("8", "M"%char); ("007", "d"%char); ("1_0", "="%char)] [8; 7; 10]).
  { repeat constructor; cbn; discriminate. }
  split; [exact H|]. exact (segments_parse _ _ H).
Defined.




